(** * doublethink.ServiceRegistry: a shallow embedding

    The registry of [doublethink/services.py] is a stateless facade over
    the RethinkDB table 'services'.  Python dicts are finite maps from
    field names to values, the table is a finite map from primary key to
    row, and every method is a state-passing function over a [world] that
    holds the caller's dict objects, the table, the clocks and the trace
    of queries sent to the database. *)

From Stdlib Require Import QArith Lqa.
From Stdlib Require Import Sorted.
From Stdlib Require OrderedTypeEx.
From stdpp Require Import gmap strings list fin_maps.

Local Open Scope Q_scope.
Local Open Scope string_scope.

(** ** Values and dicts *)

(** The scalar values a status dict holds.  A finite float is represented
    by the rational it denotes and [float('nan')] by [VNaN]: it is a
    [float] that no comparison holds of, which is what the checks of
    'ttl' and the test of the winner see of it.  (The two infinities are
    left out: in every comparison the module makes they behave as a
    finite float of the same sign.)  A [datetime] is the number of
    seconds since the epoch. *)
Inductive value : Type :=
  | VNone
  | VBool (b : bool)
  | VInt (z : Z)
  | VFloat (q : Q)
  | VStr (s : string)
  | VTime (t : Q)
  | VNaN.

Abbreviation dict := (gmap string value).

(** [isinstance(val, float) or isinstance(val, int)]; [bool] is a subclass
    of [int]. *)
Definition is_py_number (v : value) : bool :=
  match v with
  | VBool _ | VInt _ | VFloat _ | VNaN => true
  | _ => false
  end.

(** The numeric value Python arithmetic and comparison give a number; a
    NaN has none, and every comparison with it is false. *)
Definition py_num (v : value) : option Q :=
  match v with
  | VBool b => Some (if b then 1 else 0)
  | VInt z => Some (inject_Z z)
  | VFloat q => Some q
  | _ => None
  end.

(** Python's [==] on scalars: numbers compare by value across bool, int
    and float; values of different kinds are unequal, and a NaN is
    unequal to everything, itself included. *)
Definition py_eq (a b : value) : bool :=
  match py_num a, py_num b with
  | Some x, Some y => Qeq_bool x y
  | _, _ =>
      match a, b with
      | VNone, VNone => true
      | VStr s, VStr s' => String.eqb s s'
      | VTime t, VTime t' => Qeq_bool t t'
      | _, _ => false
      end
  end.

(** [d.get(k)]: a missing key reads as [None]. *)
Definition dict_get (d : dict) (k : string) : value :=
  default VNone (d !! k).

(** ** ReQL expressions *)

(** Outcome of evaluating a ReQL expression on one row. *)
Inductive reql (A : Type) : Type :=
  | Val (a : A)
  | NonExistence          (* ReqlNonExistenceError: no such attribute *)
  | LogicError.           (* any other ReqlQueryLogicError, e.g. a type error *)
Arguments Val {A} a.
Arguments NonExistence {A}.
Arguments LogicError {A}.

Definition reql_bind {A B} (m : reql A) (f : A → reql B) : reql B :=
  match m with
  | Val a => f a
  | NonExistence => NonExistence
  | LogicError => LogicError
  end.

Notation "x ←r m ; k" := (reql_bind m (fun x => k))
  (at level 100, m at next level, right associativity).

(** [row[k]] *)
Definition reql_field (row : dict) (k : string) : reql value :=
  match row !! k with
  | Some v => Val v
  | None => NonExistence
  end.

(** A ReQL number: booleans are not numbers on the server, and its JSON
    has no NaN.  What the driver and the server make of one is not in the
    source; the model carries it through as a value of a type of its own,
    which no arithmetic accepts. *)
Definition reql_num (v : value) : option Q :=
  match v with
  | VInt z => Some (inject_Z z)
  | VFloat q => Some q
  | _ => None
  end.

(** [a - b]: number - number, time - number (a time) and time - time (a
    number of seconds); anything else is a type error. *)
Definition reql_sub (a b : value) : reql value :=
  match a, reql_num a, b, reql_num b with
  | _, Some x, _, Some y => Val (VFloat (x - y))
  | VTime t, _, _, Some y => Val (VTime (t - y))
  | VTime t, _, VTime u, _ => Val (VFloat (t - u))
  | _, _, _, _ => LogicError
  end.

(** [a * b] on numbers. *)
Definition reql_mul (a b : value) : reql value :=
  match reql_num a, reql_num b with
  | Some x, Some y => Val (VFloat (x * y))
  | _, _ => LogicError
  end.

(** ReQL orders values of different types by type: booleans, null,
    numbers, times, strings. *)
Definition type_rank (v : value) : nat :=
  match v with
  | VBool _ => 0
  | VNone => 1
  | VInt _ | VFloat _ => 2
  | VTime _ => 3
  | VStr _ => 4
  | VNaN => 5
  end%nat.

Definition Qltb (x y : Q) : bool := negb (Qle_bool y x).

(** [a < b] in ReQL; total on all values. *)
Definition reql_lt (a b : value) : bool :=
  match a, b with
  | VBool x, VBool y => negb x && y
  | VNone, VNone => false
  | VStr s, VStr s' => String.ltb s s'
  | VTime t, VTime t' => Qltb t t'
  | _, _ =>
      match reql_num a, reql_num b with
      | Some x, Some y => Qltb x y
      | _, _ => Nat.ltb (type_rank a) (type_rank b)
      end
  end.

Definition reql_gt (a b : value) : bool := reql_lt b a.

Definition reql_eq (a b : value) : bool := negb (reql_lt a b) && negb (reql_lt b a).

(** ** The table 'services' and the queries the registry sends *)

Abbreviation table := (gmap string dict).

(** A field of a document under construction: a literal, or the ReQL term
    [r.now()] that the server evaluates when it runs the query. *)
Inductive field : Type :=
  | Lit (v : value)
  | RNow.

Definition eval_field (now : Q) (f : field) : value :=
  match f with
  | Lit v => v
  | RNow => VTime now
  end.

(** One entry of a write's [changes] array. *)
Record change : Type := Change { old_val : option dict; new_val : dict }.

(** The queries of [services.py], one constructor per [.run()]. *)
Inductive query : Type :=
  | QInsert (doc : gmap string field)
      (* table('services').insert(doc, conflict='replace', return_changes=True) *)
  | QClaim (role : string) (now : Q) (candidate : dict)
      (* table('services', read_mode='majority').get(role).replace(lambda row: ...,
           return_changes='always') *)
  | QUpdate (key : string) (patch : dict)
      (* table('services').get(key).update(patch) *)
  | QGetFresh (role : string) (now : Q)
      (* table('services', read_mode='majority').get_all(role).filter(lambda row: ...) *)
  | QHealthy (role : string)
      (* table('services').get_all(role, index='role').filter(...).order_by('load')[0] *)
  | QPurge (ttls_until_deletion : value).
      (* table('services').filter(...).delete() *)

(** Rows equal as documents (same fields, equal values). *)
Definition same_doc (a b : dict) : bool :=
  bool_decide (dom a = dom b) &&
  forallb (fun kv => reql_eq kv.2 (dict_get b kv.1)) (map_to_list a).

(** [insert(doc, conflict='replace', return_changes=True)].  A document
    without 'id' gets the key the engine generates; a primary key that is
    not a string is refused (an error counted in the result, no change
    reported); a document equal to the stored one is reported unchanged,
    so [changes] is empty. *)
Definition insert_replace (fresh_key : string) (now : Q)
    (doc : gmap string field) (t : table) : table * list change :=
  let d := eval_field now <$> doc in
  match d !! "id" with
  | None =>
      let d' := <["id" := VStr fresh_key]> d in
      (<[fresh_key := d']> t, [Change None d'])
  | Some (VStr k) =>
      match t !! k with
      | Some old =>
          if same_doc old d then (t, [])
          else (<[k := d]> t, [Change (Some old) d])
      | None => (<[k := d]> t, [Change None d])
      end
  | Some _ => (t, [])
  end.

(** The liveness test of [unique_service]:
    [row['last_heartbeat'] > now - row['ttl']]. *)
Definition fresh_at (now : Q) (row : dict) : reql bool :=
  lh ←r reql_field row "last_heartbeat";
  ttl ←r reql_field row "ttl";
  bound ←r reql_sub (VTime now) ttl;
  Val (reql_gt lh bound).

(** The function handed to [replace]:
    [r.branch(r.branch(row, row['last_heartbeat'] > now - row['ttl'], False),
              row, candidate)]. *)
Definition claim_fn (now : Q) (candidate : dict) (row : option dict) : reql dict :=
  match row with
  | None => Val candidate
  | Some r =>
      keep ←r fresh_at now r;
      Val (if keep then r else candidate)
  end.

(** A write may not change the primary key of a row. *)
Definition has_key (key : string) (d : dict) : bool :=
  match d !! "id" with
  | Some (VStr k) => String.eqb k key
  | _ => false
  end.

(** [get(role).replace(claim_fn, return_changes='always')]: the row is read,
    the function decides and the result is written in one step.  With
    ['always'] the [changes] array has its entry also when nothing changed,
    and when the function fails on the row, or the new value has another
    primary key, the row stays and is reported as both old and new value. *)
Definition claim (role : string) (now : Q) (candidate : dict) (t : table)
    : table * list change :=
  let row := t !! role in
  let unchanged :=
    match row with
    | Some r => (t, [Change row r])
    | None => (t, [])
    end in
  match claim_fn now candidate row with
  | Val d =>
      if has_key role d then (<[role := d]> t, [Change row d])
      else unchanged
  | _ => unchanged
  end.

(** [get(key).update(patch)]: merges [patch] into the row if there is one. *)
Definition update (key : string) (patch : dict) (t : table) : table :=
  match t !! key with
  | Some row =>
      if has_key key (patch ∪ row) then <[key := patch ∪ row]> t else t
  | None => t
  end.

(** [filter(f)]: a row on which [f] fails with a non-existence error is
    skipped (the default of [filter]); any other error fails the query. *)
Fixpoint reql_filter {A} (f : A → reql bool) (rows : list A) : reql (list A) :=
  match rows with
  | [] => Val []
  | row :: rest =>
      match f row with
      | Val b =>
          rest' ←r reql_filter f rest;
          Val (if b then row :: rest' else rest')
      | NonExistence => reql_filter f rest
      | LogicError => LogicError
      end
  end.

(** [get_all(role)] on the primary key. *)
Definition get_all_pk (key : string) (t : table) : list dict :=
  match t !! key with
  | Some row => [row]
  | None => []
  end.

(** [get_all(role).filter(lambda row: row['last_heartbeat'] > now - row['ttl'])] *)
Definition get_fresh (role : string) (now : Q) (t : table) : reql (list dict) :=
  reql_filter (fresh_at now) (get_all_pk role t).

(** The liveness test of [healthy_service] and [healthy_services]:
    [r.now().sub(svc["last_heartbeat"]) < svc["ttl"]]. *)
Definition healthy_at (now : Q) (svc : dict) : reql bool :=
  lh ←r reql_field svc "last_heartbeat";
  age ←r reql_sub (VTime now) lh;
  ttl ←r reql_field svc "ttl";
  Val (reql_lt age ttl).

(** [get_all(role, index='role')]: the rows whose 'role' is [role], in the
    order the engine scans them. *)
Definition has_role (role : string) (row : dict) : bool :=
  match row !! "role" with
  | Some (VStr s) => String.eqb s role
  | _ => false
  end.

Definition get_all_role (role : string) (t : table) : list dict :=
  List.filter (has_role role) (map_to_list t).*2.

(** [order_by("load")]: ascending, rows without the field first. *)
Definition load_lt (a b : dict) : bool :=
  match a !! "load", b !! "load" with
  | None, Some _ => true
  | Some x, Some y => reql_lt x y
  | _, _ => false
  end.

Fixpoint insert_by_load (row : dict) (sorted : list dict) : list dict :=
  match sorted with
  | [] => [row]
  | r :: rest =>
      if load_lt r row then r :: insert_by_load row rest
      else row :: sorted
  end.

Definition order_by_load (rows : list dict) : list dict :=
  foldr insert_by_load [] rows.

(** [...[0]] *)
Definition nth0 {A} (l : list A) : reql A :=
  match l with
  | x :: _ => Val x
  | [] => NonExistence
  end.

Definition healthy_first (role : string) (now : Q) (t : table) : reql dict :=
  rows ←r reql_filter (healthy_at now) (get_all_role role t);
  nth0 (order_by_load rows).

(** The test of [purge_stale_services]:
    [r.now().sub(svc["last_heartbeat"]).gt(svc["ttl"] * ttls_until_deletion)]. *)
Definition purgeable (now : Q) (ttls_until_deletion : value) (svc : dict) : reql bool :=
  lh ←r reql_field svc "last_heartbeat";
  age ←r reql_sub (VTime now) lh;
  ttl ←r reql_field svc "ttl";
  bound ←r reql_mul ttl ttls_until_deletion;
  Val (reql_gt age bound).

(** [table.filter(...).delete()]: the selected rows are removed; the result
    reports how many.  A query whose filter fails is modelled as having no
    effect. *)
Definition purge (now : Q) (ttls_until_deletion : value) (t : table)
    : reql (table * nat) :=
  doomed ←r reql_filter (fun kv => purgeable now ttls_until_deletion kv.2)
                        (map_to_list t);
  Val (foldr (fun kv acc => delete kv.1 acc) t doomed, length doomed).

(** What [.run()] hands back to Python. *)
Inductive response : Type :=
  | RChanges (changes : list change)
  | RRows (rows : list dict)
  | RRow (row : dict)
  | RDeleted (deleted : nat)
  | RDone.

(** The meaning of a query on the table, at server time [now]; [fresh_key]
    is the key the engine would generate. *)
Definition eval (fresh_key : string) (now : Q) (q : query) (t : table)
    : reql (table * response) :=
  match q with
  | QInsert doc =>
      let '(t', cs) := insert_replace fresh_key now doc t in Val (t', RChanges cs)
  | QClaim role at_ candidate =>
      let '(t', cs) := claim role at_ candidate t in Val (t', RChanges cs)
  | QUpdate key patch => Val (update key patch t, RDone)
  | QGetFresh role at_ =>
      rows ←r get_fresh role at_ t; Val (t, RRows rows)
  | QHealthy role =>
      row ←r healthy_first role now t; Val (t, RRow row)
  | QPurge m =>
      tn ←r purge now m t; Val (tn.1, RDeleted tn.2)
  end.

(** ** The world the methods run in *)

(** What the registry takes from its environment. *)
Record env : Type := Env {
  utcnow : nat → Q;          (* doublethink.utcnow(), at its n-th call *)
  r_now : nat → Q;           (* r.now() on the server, during the n-th query *)
  gethostname : string;      (* socket.gethostname() *)
  getpid : Z;                (* os.getpid() *)
  unreachable : nat → bool;  (* whether the n-th round trip fails *)
  generated_key : nat → string
}.

Definition loc := nat.

Inductive level : Type := DEBUG | ERROR.

Record world : Type := World {
  heap : list dict;                (* the dict objects Python code can reach *)
  services : table;                (* the table 'services' *)
  clock_reads : nat;               (* calls of doublethink.utcnow() so far *)
  queries : list query;            (* the queries sent so far, oldest first *)
  logged : list (level * string)   (* log records emitted so far *)
}.

Inductive exn : Type :=
  | PyException (msg : string)    (* raise Exception(msg) *)
  | TypeError
  | KeyError
  | IndexError
  | ReqlNonExistenceError
  | ReqlQueryLogicError
  | ReqlDriverError.

Inductive outcome (A : Type) : Type :=
  | Return (a : A)
  | Raise (e : exn).
Arguments Return {A} a.
Arguments Raise {A} e.

(** A Python computation: it ends by returning or raising, and either way
    leaves a world behind. *)
Definition M (A : Type) : Type := world → outcome A * world.

#[global] Instance M_ret : MRet M := fun A a w => (Return a, w).
#[global] Instance M_bind : MBind M := fun A B f m w =>
  match m w with
  | (Return a, w') => f a w'
  | (Raise e, w') => (Raise e, w')
  end.

Definition raise {A} (e : exn) : M A := fun w => (Raise e, w).

(** [try: body  except <caught>: handler] *)
Definition try_except {A} (body : M A) (caught : exn → bool) (handler : M A) : M A :=
  fun w =>
    match body w with
    | (Raise e, w') => if caught e then handler w' else (Raise e, w')
    | r => r
    end.

Definition set_heap (h : list dict) (w : world) : world :=
  World h (services w) (clock_reads w) (queries w) (logged w).

Definition deref (l : loc) : M dict := fun w =>
  match heap w !! l with
  | Some d => (Return d, w)
  | None => (Raise TypeError, w)
  end.

Definition store (l : loc) (d : dict) : M unit := fun w =>
  (Return (), set_heap (<[l := d]> (heap w)) w).

(** [d[k] = v] *)
Definition setitem (l : loc) (k : string) (v : value) : M unit :=
  d ← deref l; store l (<[k := v]> d).

(** [del d[k]] *)
Definition delitem (l : loc) (k : string) : M unit :=
  d ← deref l;
  match d !! k with
  | Some _ => store l (delete k d)
  | None => raise KeyError
  end.

(** [k in d] *)
Definition contains (l : loc) (k : string) : M bool :=
  d ← deref l; mret (bool_decide (is_Some (d !! k))).

(** [d[k]] *)
Definition getitem (l : loc) (k : string) : M value :=
  d ← deref l;
  match d !! k with
  | Some v => mret v
  | None => raise KeyError
  end.

(** A new dict object. *)
Definition alloc (d : dict) : M loc := fun w =>
  (Return (length (heap w)), set_heap (heap w ++ [d]) w).

Definition log (lvl : level) (msg : string) : M unit := fun w =>
  (Return (),
   World (heap w) (services w) (clock_reads w) (queries w) (logged w ++ [(lvl, msg)])).

(** [doublethink.utcnow()] *)
Definition read_clock (E : env) : M Q := fun w =>
  (Return (utcnow E (clock_reads w)),
   World (heap w) (services w) (S (clock_reads w)) (queries w) (logged w)).

(** [query.run()]: one round trip.  The query is recorded; if the database
    cannot be reached the driver raises, otherwise the server runs the
    query on the table. *)
Definition run (E : env) (q : query) : M response := fun w =>
  let n := length (queries w) in
  let sent t := World (heap w) t (clock_reads w) (queries w ++ [q]) (logged w) in
  if unreachable E n then (Raise ReqlDriverError, sent (services w))
  else
    match eval (generated_key E n) (r_now E n) q (services w) with
    | Val (t, r) => (Return r, sent t)
    | NonExistence => (Raise ReqlNonExistenceError, sent (services w))
    | LogicError => (Raise ReqlQueryLogicError, sent (services w))
    end.

(** The parts of a response the methods read. *)
Definition changes_of (r : response) : list change :=
  match r with RChanges cs => cs | _ => [] end.

Definition rows_of (r : response) : list dict :=
  match r with RRows rows => rows | _ => [] end.

(** ** ServiceRegistry *)

Definition when (b : bool) (m : M unit) : M unit := if b then m else mret ().

(** [val <= 0] on a Python number *)
Definition py_le0 (val : value) : bool :=
  match py_num val with
  | Some x => Qle_bool x 0
  | None => false
  end.

(** [not (isinstance(val, float) or isinstance(val, int)) or val <= 0] *)
Definition bad_ttl (val : value) : bool :=
  negb (is_py_number val) || py_le0 val.

(** [for field in ...: if not field in status_info: raise Exception(...)] *)
Fixpoint require_fields (status_info : loc) (fields : list string) : M unit :=
  match fields with
  | [] => mret ()
  | field :: rest =>
      present ← contains status_info field;
      when (negb present)
        (raise (PyException ("status_info is missing required field " ++ field)));;
      require_fields status_info rest
  end.

(** [if not k in d: d[k] = v], on a document under construction *)
Definition setdefault_field (k : string) (f : field) (d : gmap string field)
    : gmap string field :=
  match d !! k with
  | Some _ => d
  | None => <[k := f]> d
  end.

Definition any_exception (e : exn) : bool := true.

Definition heartbeat (E : env) (status_info : loc) : M loc :=
  require_fields status_info ["role"; "ttl"; "load"];;
  val ← getitem status_info "ttl";
  when (bad_ttl val) (raise (PyException "ttl must be a number > 0"));;
  d ← deref status_info;
  let updated_status_info :=
    setdefault_field "pid" (Lit (VInt (getpid E)))
      (setdefault_field "host" (Lit (VStr (gethostname E)))
        (setdefault_field "first_heartbeat" RNow
          (<["last_heartbeat" := RNow]> (Lit <$> d)))) in
  try_except
    (result ← run E (QInsert updated_status_info);
     match changes_of result with
     | c :: _ => alloc (new_val c)
     | [] => raise IndexError
     end)
    any_exception
    (log ERROR "error updating service registry";; mret status_info).

Definition timestamp_field (k : string) : bool :=
  String.eqb k "first_heartbeat" || String.eqb k "last_heartbeat".

(** [all([new_val.get(k) == candidate[k] for k in candidate
          if k not in ('first_heartbeat', 'last_heartbeat')])] *)
Definition candidate_won (new_val candidate : dict) : bool :=
  forallb (fun kv => py_eq (dict_get new_val kv.1) kv.2)
    (List.filter (fun kv => negb (timestamp_field kv.1)) (map_to_list candidate)).

(** [if not k in candidate: candidate[k] = v] *)
Definition setdefault (l : loc) (k : string) (v : value) : M unit :=
  present ← contains l k; when (negb present) (setitem l k v).

(** Lines 224-237 of [unique_service]: force 'id', validate 'ttl', stamp the
    heartbeats and fill in 'host' and 'pid', all on the caller's dict. *)
Definition stamp_candidate (E : env) (role : string) (candidate : loc) (now : Q)
    : M unit :=
  setitem candidate "id" (VStr role);;
  present ← contains candidate "ttl";
  when (negb present)
    (raise (PyException "candidate is missing required field 'ttl'"));;
  val ← getitem candidate "ttl";
  when (bad_ttl val) (raise (PyException "'ttl' must be a number > 0"));;
  setitem candidate "first_heartbeat" (VTime now);;
  setitem candidate "last_heartbeat" (VTime now);;
  setdefault candidate "host" (VStr (gethostname E));;
  setdefault candidate "pid" (VInt (getpid E)).

(** Lines 239-253: the conditional replace, the comparison of its result
    with the candidate, and the heartbeat of the winner. *)
Definition elect (E : env) (role : string) (candidate : loc) (now : Q) : M unit :=
  sent ← deref candidate;
  result ← run E (QClaim role now sent);
  match changes_of result with
  | ch :: _ =>
      when (candidate_won (new_val ch) sent)
        (delitem candidate "first_heartbeat";;
         patch ← deref candidate;
         run E (QUpdate role patch);; mret ())
  | [] => raise IndexError
  end.

(** Lines 255-261: read the row of the role back if it is fresh. *)
Definition read_back (E : env) (role : string) (now : Q) : M (option dict) :=
  results ← run E (QGetFresh role now);
  mret (head (rows_of results)).

Definition unique_service (E : env) (role : string) (candidate : option loc)
    : M (option dict) :=
  now ← read_clock E;   (* use the same concept of 'now' for all queries *)
  match candidate with
  | Some c => stamp_candidate E role c now;; elect E role c now
  | None => mret ()
  end;;
  read_back E role now.

Definition only_non_existence (e : exn) : bool :=
  match e with ReqlNonExistenceError => true | _ => false end.

Definition healthy_service (E : env) (role : string) : M (option dict) :=
  try_except
    (result ← run E (QHealthy role);
     mret (match result with RRow row => Some row | _ => None end))
    only_non_existence
    (mret None).

Definition purge_stale_services (E : env) (ttls_until_deletion : option value)
    : M response :=
  let query := QPurge (default (VInt 2) ttls_until_deletion) in
  log DEBUG "Running query";;
  result ← run E query;
  log DEBUG "Results";;
  mret result.

(** ** unregister and healthy_services *)

(** The summary RethinkDB returns for a write. *)
Record write_summary : Type := WriteSummary {
  deleted : nat; errors : nat; inserted : nat;
  replaced : nat; skipped : nat; unchanged : nat
}.

#[global] Instance write_summary_eq_dec : EqDecision write_summary.
Proof. solve_decision. Defined.

(** [table('services').get(id).delete()]: a missing row is skipped. *)
Definition delete_row (id : string) (t : table) : table * write_summary :=
  match t !! id with
  | Some _ => (delete id t, WriteSummary 1 0 0 0 0 0)
  | None => (t, WriteSummary 0 0 0 0 1 0)
  end.

(** [if role:] on an optional string: [None] and [''] are falsy. *)
Definition given_role (role : option string) : option string :=
  match role with
  | Some r => if String.eqb r "" then None else Some r
  | None => None
  end.

(** [table('services')[.get_all(role, index='role')].filter(...).order_by("load")] *)
Definition healthy_list (role : option string) (now : Q) (t : table)
    : reql (list dict) :=
  let rows :=
    match role with
    | Some r => get_all_role r t
    | None => (map_to_list t).*2
    end in
  kept ←r reql_filter (healthy_at now) rows;
  Val (order_by_load kept).

(** The queries of [unregister] and [healthy_services]. *)
Inductive further_query : Type :=
  | QDelete (id : string)
  | QHealthyList (role : option string).

(** The registry as these two methods see it: the world of the other
    methods, the queries they themselves have sent, and the records they
    have logged at WARN. *)
Record registry : Type := Registry {
  core : world;
  further_queries : list further_query;
  warnings : list string
}.

(** Round trips to the database so far. *)
Definition round_trips (s : registry) : nat :=
  (length (queries (core s)) + length (further_queries s))%nat.

Definition with_table (t : table) (w : world) : world :=
  World (heap w) t (clock_reads w) (queries w) (logged w).

(** The text of the warning of [unregister] (the result is left out). *)
Definition deletion_warning (id : string) : string :=
  "unexpected result attempting to delete id=" ++ id.

Definition unregister (E : env) (id : string) (s : registry)
    : outcome unit * registry :=
  let sent := (further_queries s ++ [QDelete id])%list in
  if unreachable E (round_trips s)
  then (Raise ReqlDriverError, Registry (core s) sent (warnings s))
  else
    let '(t, result) := delete_row id (services (core s)) in
    if bool_decide (result ≠ WriteSummary 1 0 0 0 0 0)
    then (Return (),
          Registry (with_table t (core s)) sent
            (warnings s ++ [deletion_warning id])%list)
    else (Return (), Registry (with_table t (core s)) sent (warnings s)).

Definition healthy_services (E : env) (role : option string) (s : registry)
    : outcome (list dict) * registry :=
  let query := QHealthyList (given_role role) in
  let s' := Registry (core s) (further_queries s ++ [query]) (warnings s) in
  if unreachable E (round_trips s) then (Raise ReqlDriverError, s')
  else
    match healthy_list (given_role role) (r_now E (round_trips s)) (services (core s)) with
    | Val result => (Return result, s')
    | NonExistence => (Return [], s')      (* except r.ReqlNonExistenceError *)
    | LogicError => (Raise ReqlQueryLogicError, s')
    end.

(** ** Creating the table: [__init__] and [_ensure_table] *)

(** What [_ensure_table] reads of the Rethinker it is given. *)
Record rethinker : Type := Rethinker {
  dbname : option string;
  servers : list string
}.

(** The databases of the cluster, the tables of each and the secondary
    indexes of each table. *)
Abbreviation catalog := (gmap string (gmap string (gset string))).

Inductive admin_query : Type :=
  | QDbList
  | QDbCreate (db : string)
  | QTableList (db : string)
  | QTableCreate (db name : string) (shards replicas : nat)
  | QIndexCreate (db name index : string).

Inductive admin_result : Type :=
  | Names (names : list string)
  | Created.

(** The meaning of the administrative queries: creating what exists and
    using what does not exist fail. *)
Definition eval_admin (q : admin_query) (cat : catalog)
    : option (catalog * admin_result) :=
  match q with
  | QDbList => Some (cat, Names (map_to_list cat).*1)
  | QDbCreate db =>
      match cat !! db with
      | Some _ => None
      | None => Some (<[db := ∅]> cat, Created)
      end
  | QTableList db =>
      tables ← cat !! db; Some (cat, Names (map_to_list tables).*1)
  | QTableCreate db name _ _ =>
      tables ← cat !! db;
      match tables !! name with
      | Some _ => None
      | None => Some (<[db := <[name := ∅]> tables]> cat, Created)
      end
  | QIndexCreate db name index =>
      tables ← cat !! db;
      indexes ← tables !! name;
      if bool_decide (index ∈ indexes) then None
      else Some (<[db := <[name := {[index]} ∪ indexes]> tables]> cat, Created)
  end.

Inductive setup_error : Type :=
  | AssertionError
  | SetupDriverError      (* the database cannot be reached *)
  | SetupOpFailed.        (* the server refuses the operation *)

Record cluster : Type := Cluster {
  catalog_of : catalog;
  admin_queries : list admin_query;   (* queries sent so far, oldest first *)
  infos : list string                 (* records logged at INFO *)
}.

Definition Setup (A : Type) : Type := cluster → (setup_error + A) * cluster.

#[global] Instance Setup_ret : MRet Setup := fun A a c => (inr a, c).
#[global] Instance Setup_bind : MBind Setup := fun A B f m c =>
  match m c with
  | (inr a, c') => f a c'
  | (inl e, c') => (inl e, c')
  end.

(** [query.run()] for an administrative query. *)
Definition send (E : env) (q : admin_query) : Setup admin_result := fun c =>
  let sent cat := Cluster cat (admin_queries c ++ [q]) (infos c) in
  if unreachable E (length (admin_queries c))
  then (inl SetupDriverError, sent (catalog_of c))
  else
    match eval_admin q (catalog_of c) with
    | Some (cat, r) => (inr r, sent cat)
    | None => (inl SetupOpFailed, sent (catalog_of c))
    end.

Definition names_of (r : admin_result) : list string :=
  match r with Names names => names | Created => [] end.

Definition info (msg : string) : Setup unit := fun c =>
  (inr (), Cluster (catalog_of c) (admin_queries c) (infos c ++ [msg])).

(** [assert self.rr.dbname] *)
Definition assert_dbname (rr : rethinker) : Setup string := fun c =>
  match dbname rr with
  | Some db => if String.eqb db "" then (inl AssertionError, c) else (inr db, c)
  | None => (inl AssertionError, c)
  end.

Definition unless (b : bool) (m : Setup unit) : Setup unit :=
  if b then mret () else m.

(** The body of [if not self.rr.dbname in dbs:] *)
Definition create_database (E : env) (db : string) : Setup unit :=
  info "creating rethinkdb database";;
  send E (QDbCreate db);; mret ().

(** The body of [if not 'services' in tables:] *)
Definition create_services_table (E : env) (rr : rethinker) (db : string)
    : Setup unit :=
  info "creating rethinkdb table 'services' in database";;
  send E (QTableCreate db "services" 1 (Nat.min 3 (length (servers rr))));;
  send E (QIndexCreate db "services" "role");; mret ().

Definition ensure_table (E : env) (rr : rethinker) : Setup unit :=
  dbs ← send E QDbList;
  db ← assert_dbname rr;
  unless (bool_decide (db ∈ names_of dbs)) (create_database E db);;
  tables ← send E (QTableList db);
  unless (bool_decide ("services" ∈ names_of tables))
    (create_services_table E rr db).

(** [ServiceRegistry(rr)] *)
Definition init (E : env) (rr : rethinker) : Setup unit := ensure_table E rr.

(** * Vocabulary of the specification *)

(** A number greater than zero, as Python sees it. *)
Definition positive_number (v : value) : Prop :=
  match v with
  | VBool b => b = true
  | VInt z => (0 < z)%Z
  | VFloat q => 0 < q
  | _ => False
  end.

(** What the check of 'ttl' refuses: a value that is neither an int nor a
    float, or a number that compares [<= 0].  A NaN is a float and is not
    [<= 0]: it is no number greater than zero, and it is not refused. *)
Definition refused_ttl (v : value) : Prop :=
  match v with
  | VBool b => b = false
  | VInt z => (z <= 0)%Z
  | VFloat q => q <= 0
  | VNaN => False
  | _ => True
  end.

(** A status that passes lines 138-145 of [heartbeat]. *)
Definition checked_status (d : dict) : Prop :=
  is_Some (d !! "role") ∧ is_Some (d !! "load") ∧
  ∃ ttl, d !! "ttl" = Some ttl ∧ bad_ttl ttl = false.

(** A status that lines 138-145 of [heartbeat] refuse. *)
Definition refused_status (d : dict) : Prop :=
  d !! "role" = None ∨ d !! "load" = None ∨ d !! "ttl" = None ∨
  ∃ ttl, d !! "ttl" = Some ttl ∧ refused_ttl ttl.

(** [math.isnan(v)] for a float, false for every other value. *)
Definition is_nan (v : value) : bool :=
  match v with VNaN => true | _ => false end.

(** A dict none of whose fields is a NaN. *)
Definition nan_free (d : dict) : Prop := ∀ k, d !! k ≠ Some VNaN.

(** The input the specification has [heartbeat] accept: the three required
    fields, with a 'ttl' that is a number greater than zero. *)
Definition valid_status (d : dict) : Prop :=
  is_Some (d !! "role") ∧ is_Some (d !! "load") ∧
  ∃ ttl, d !! "ttl" = Some ttl ∧ positive_number ttl.

(** The input the specification says must be rejected. *)
Definition invalid_status (d : dict) : Prop :=
  d !! "role" = None ∨ d !! "load" = None ∨ d !! "ttl" = None ∨
  ∃ ttl, d !! "ttl" = Some ttl ∧ ¬ positive_number ttl.

(** A status the specification wants rejected although line 144 passes
    it: its 'ttl' is a NaN. *)
Definition nan_status : dict :=
  {[ "role" := VStr "worker"; "load" := VFloat (1 # 2); "ttl" := VNaN ]}.

(** A candidate whose 'ttl' is a NaN. *)
Definition nan_candidate : dict := {[ "ttl" := VNaN ]}.

(** A sample environment: both clocks read 1000 s at their first use and
    advance by one second per use, the database is reachable. *)
Definition sample_env : env :=
  Env (fun n => inject_Z (1000 + Z.of_nat n)) (fun n => inject_Z (1000 + Z.of_nat n))
      "svc01" 4242 (fun _ => false) (fun _ => "generated-key").

(** The same environment with the database out of reach. *)
Definition offline_env : env :=
  Env (utcnow sample_env) (r_now sample_env) "svc01" 4242 (fun _ => true)
      (fun _ => "generated-key").

Definition world_of (objects : list dict) (t : table) : world :=
  World objects t 0 [] [].

(** The world in which the dict object [l] holds [d]. *)
Definition put (l : loc) (d : dict) (w : world) : world :=
  set_heap (<[l := d]> (heap w)) w.

Definition dict_setdefault (k : string) (v : value) (d : dict) : dict :=
  match d !! k with
  | Some _ => d
  | None => <[k := v]> d
  end.

(** The candidate as [unique_service] has rewritten it when it sends the
    conditional replace. *)
Definition stamped (E : env) (role : string) (now : Q) (d : dict) : dict :=
  dict_setdefault "pid" (VInt (getpid E))
    (dict_setdefault "host" (VStr (gethostname E))
      (<["last_heartbeat" := VTime now]>
        (<["first_heartbeat" := VTime now]> (<["id" := VStr role]> d)))).

(** The world right after [doublethink.utcnow()]. *)
Definition tick (w : world) : world :=
  World (heap w) (services w) (S (clock_reads w)) (queries w) (logged w).

(** "Fails with the validation error before any storage operation": the
    call raises the exception of the input checks, no query has been sent
    and the table is as it was. *)
Definition rejected_before_storage {A} (w : world) (r : outcome A * world) : Prop :=
  ∃ msg, r.1 = Raise (PyException msg) ∧
         queries r.2 = queries w ∧ services r.2 = services w.

(** A candidate without 'role' and 'load'. *)
Definition bare_candidate : dict := {[ "ttl" := VInt 60 ]}.

(** An incumbent of the role "leader" that last heartbeated at 900 s, and a
    challenger. *)
Definition old_leader : dict :=
  {[ "id" := VStr "leader"; "ttl" := VInt 60; "node" := VStr "a";
     "first_heartbeat" := VTime 100; "last_heartbeat" := VTime 900 ]}.

Definition challenger : dict :=
  {[ "id" := VStr "leader"; "ttl" := VInt 60; "node" := VStr "b";
     "first_heartbeat" := VTime 1000; "last_heartbeat" := VTime 1000 ]}.

(** The new value the conditional replace reports. *)
Definition reported (role : string) (now : Q) (sent : dict) (t : table) : dict :=
  match (claim role now sent t).2 with
  | ch :: _ => new_val ch
  | [] => sent
  end.

(** The world after the query [q] has been sent and has left the table [t]. *)
Definition after_query (q : query) (t : table) (w : world) : world :=
  World (heap w) t (clock_reads w) (queries w ++ [q]) (logged w).

(** The reference time a query carries in its liveness test, if it has one. *)
Definition reference_time (q : query) : option Q :=
  match q with
  | QClaim _ t _ | QGetFresh _ t => Some t
  | _ => None
  end.

(** The conditional replace among the queries of a call. *)
Definition is_replace (q : query) : bool :=
  match q with QClaim _ _ _ => true | _ => false end.

(** A query that tests liveness does so against [now]. *)
Definition carries (now : Q) (q : query) : Prop :=
  ∀ t, reference_time q = Some t → t = now.

(** The comparison as the specification words it: the returned row and the
    candidate have the same fields, timestamps apart, with equal values. *)
Definition rows_agree (row candidate : dict) : Prop :=
  ∀ k, k ≠ "first_heartbeat" → k ≠ "last_heartbeat" →
       match row !! k, candidate !! k with
       | Some a, Some b => py_eq a b = true
       | None, None => True
       | _, _ => False
       end.

(** The comparison the code makes: every field of the candidate, timestamps
    apart, has an equal value in the returned row ([None] if it is missing
    there). *)
Definition candidate_fields_match (row candidate : dict) : Prop :=
  ∀ k v, candidate !! k = Some v →
         k ≠ "first_heartbeat" → k ≠ "last_heartbeat" →
         py_eq (dict_get row k) v = true.

(** A live holder of the role "leader" on host "svc01", process 4242. *)
Definition incumbent : dict :=
  {[ "id" := VStr "leader"; "ttl" := VInt 60; "host" := VStr "svc01";
     "pid" := VInt 4242; "node" := VStr "a";
     "first_heartbeat" := VTime 900; "last_heartbeat" := VTime 990 ]}.

(** The liveness fields of a row, when they have the types the registry
    writes. *)
Definition last_heartbeat_of (row : dict) : option Q :=
  match row !! "last_heartbeat" with
  | Some (VTime t) => Some t
  | _ => None
  end.

Definition ttl_of (row : dict) : option Q := row !! "ttl" ≫= reql_num.

(** The rows a [filter] keeps. *)
Definition selects {A} (f : A → reql bool) (x : A) : bool :=
  match f x with
  | Val true => true
  | _ => false
  end.

(** A worker that last heartbeated at 850 s. *)
Definition old_worker : dict :=
  {[ "id" := VStr "w1"; "role" := VStr "worker"; "load" := VInt 1; "ttl" := VInt 60;
     "last_heartbeat" := VTime 850 ]}.

(** The load of a row, when it is a number. *)
Definition load_of (row : dict) : option Q := row !! "load" ≫= reql_num.

(** Healthy: [now - last_heartbeat < ttl]. *)
Definition healthy (now : Q) (row : dict) : Prop :=
  ∃ lh ttl, last_heartbeat_of row = Some lh ∧ ttl_of row = Some ttl ∧
            now - lh < ttl.

(** Down: [now - last_heartbeat >= ttl]. *)
Definition down (now : Q) (row : dict) : Prop :=
  ∃ lh ttl, last_heartbeat_of row = Some lh ∧ ttl_of row = Some ttl ∧
            ttl <= now - lh.

(** The stored records of a role. *)
Definition record_of_role (t : table) (role : string) (row : dict) : Prop :=
  ∃ k, t !! k = Some row ∧ row !! "role" = Some (VStr role).

(** The workers of the specification's example. *)
Definition worker_a : dict :=
  {[ "id" := VStr "A"; "role" := VStr "worker"; "load" := VFloat (9 # 10);
     "ttl" := VInt 60; "last_heartbeat" := VTime 0 ]}.
Definition worker_b : dict :=
  {[ "id" := VStr "B"; "role" := VStr "worker"; "load" := VFloat (3 # 10);
     "ttl" := VInt 60; "last_heartbeat" := VTime 0 ]}.
Definition workers : table := {[ "A" := worker_a; "B" := worker_b ]}.

(** An environment whose server clock reads [t]. *)
Definition server_at (t : Q) : env :=
  Env (fun _ => t) (fun _ => t) "svc01" 4242 (fun _ => false) (fun _ => "generated-key").

(** No row of [l] sorts before [best]. *)
Definition least (best : dict) (l : list dict) : Prop :=
  ∀ x, x ∈ l → load_lt x best = false.

(** The record [heartbeat] stores for the status [d] at server time [now]. *)
Definition normalized (E : env) (now : Q) (d : dict) : dict :=
  dict_setdefault "pid" (VInt (getpid E))
    (dict_setdefault "host" (VStr (gethostname E))
      (dict_setdefault "first_heartbeat" (VTime now)
        (<["last_heartbeat" := VTime now]> d))).

(** The table after [unique_service] with an accepted candidate, when the
    database answers every query. *)
Definition elected (role : string) (now : Q) (sent : dict) (t : table) : table :=
  let t1 := (claim role now sent t).1 in
  if candidate_won (reported role now sent t) sent
  then update role (delete "first_heartbeat" sent) t1
  else t1.

Definition read_outcome (role : string) (now : Q) (t : table) : outcome (option dict) :=
  match get_fresh role now t with
  | Val rows => Return (head rows)
  | NonExistence => Raise ReqlNonExistenceError
  | LogicError => Raise ReqlQueryLogicError
  end.

(** A role is vacant when it has no row or its row is down. *)
Definition vacant (now : Q) (role : string) (t : table) : Prop :=
  t !! role = None ∨ ∃ row, t !! role = Some row ∧ down now row.

(** [load_lt] read as "sorts no later than". *)
Definition load_le (a b : dict) : Prop := load_lt b a = false.

(** The records a call of [healthy_services(role)] looks at. *)
Definition looked_at (role : option string) (t : table) (row : dict) : Prop :=
  ∃ k, t !! k = Some row ∧
       match given_role role with
       | Some r => row !! "role" = Some (VStr r)
       | None => True
       end.

Definition fresh_cluster (cat : catalog) : cluster := Cluster cat [] [].

(** A usable database name. *)
Definition named (rr : rethinker) (db : string) : Prop :=
  dbname rr = Some db ∧ db ≠ "".

(** Sample data for the further properties. *)

(** A worker's status, with and without an id of its own. *)
Definition status_w1 : dict :=
  {[ "id" := VStr "w1"; "role" := VStr "worker"; "load" := VFloat (1 # 2);
     "ttl" := VInt 60 ]}.

Definition status_anonymous : dict :=
  {[ "role" := VStr "worker"; "load" := VFloat (1 # 2); "ttl" := VInt 60 ]}.

(** A candidate that names another node than the incumbent, and one without
    'ttl'. *)
Definition rival : dict := {[ "ttl" := VInt 60; "node" := VStr "b" ]}.

Definition no_ttl : dict := {[ "node" := VStr "b" ]}.

(** A worker that heartbeated ten seconds before the sample clocks start. *)
Definition live_worker : dict :=
  {[ "id" := VStr "w2"; "role" := VStr "worker"; "load" := VInt 1; "ttl" := VInt 60;
     "last_heartbeat" := VTime 990 ]}.

Definition registry_of (t : table) : registry := Registry (world_of [] t) [] [].

(** A Rethinker for the database "registry" on a cluster of two servers. *)
Definition sample_rethinker : rethinker := Rethinker (Some "registry") ["db0"; "db1"].

(** * Properties *)

(** ** Running monadic code *)

Lemma bind_return {A B} (m : M A) (f : A → M B) w a w' :
  m w = (Return a, w') → (m ≫= f) w = f a w'.
Proof. intros H. unfold mbind, M_bind. by rewrite H. Qed.

Lemma bind_raise {A B} (m : M A) (f : A → M B) w e w' :
  m w = (Raise e, w') → (m ≫= f) w = (Raise e, w').
Proof. intros H. unfold mbind, M_bind. by rewrite H. Qed.

Lemma deref_ok l d w : heap w !! l = Some d → deref l w = (Return d, w).
Proof. intros H. unfold deref. by rewrite H. Qed.

Lemma contains_ok l k d w :
  heap w !! l = Some d →
  contains l k w = (Return (bool_decide (is_Some (d !! k))), w).
Proof. intros H. unfold contains. by rewrite (bind_return _ _ _ _ _ (deref_ok _ _ _ H)). Qed.

Lemma getitem_ok l k d v w :
  heap w !! l = Some d → d !! k = Some v → getitem l k w = (Return v, w).
Proof.
  intros H Hk. unfold getitem.
  rewrite (bind_return _ _ _ _ _ (deref_ok _ _ _ H)). by rewrite Hk.
Qed.

Lemma setitem_ok l k v d w :
  heap w !! l = Some d →
  setitem l k v w = (Return (), set_heap (<[l := <[k := v]> d]> (heap w)) w).
Proof. intros H. unfold setitem. by rewrite (bind_return _ _ _ _ _ (deref_ok _ _ _ H)). Qed.

(** ** Validation of 'ttl' *)

(** The check refuses exactly the values of [refused_ttl]. *)
Lemma bad_ttl_spec v : bad_ttl v = true ↔ refused_ttl v.
Proof.
  unfold bad_ttl, py_le0. destruct v as [|b|z|q|s|t|]; simpl; try done.
  - destruct b; simpl; split; done.
  - rewrite Qle_bool_iff. unfold Qle; simpl. lia.
  - by rewrite Qle_bool_iff.
Qed.

(** What it refuses is no number greater than zero; the converse fails at
    the NaN only. *)
Lemma refused_ttl_spec v : refused_ttl v ↔ ¬ positive_number v ∧ v ≠ VNaN.
Proof.
  destruct v as [|b|z|q|s|t|]; simpl.
  - split; [intros _; split; [tauto | done] | done].
  - destruct b; (split; [intros H; split; [congruence | done] | intros [H _]]);
      [by destruct H | done].
  - split; [intros H; split; [lia | done] | intros [H _]; lia].
  - split; [intros H; split; [by apply Qle_not_lt | done]
           | intros [H _]; by apply Qnot_lt_le].
  - split; [intros _; split; [tauto | done] | done].
  - split; [intros _; split; [tauto | done] | done].
  - split; [done | by intros [_ []]].
Qed.

Lemma bad_ttl_false v : bad_ttl v = false ↔ positive_number v ∨ v = VNaN.
Proof.
  destruct (bad_ttl v) eqn:Hb.
  - apply bad_ttl_spec, refused_ttl_spec in Hb. split; [done | tauto].
  - split; [intros _ | done].
    destruct v as [|b|z|q|s|t|]; [left | left | left | left | left | left | by right];
      simpl in *; try done.
    + destruct b; [done | discriminate Hb].
    + unfold bad_ttl, py_le0 in Hb; simpl in Hb.
      destruct (Qle_bool (inject_Z z) 0) eqn:Hle; [done |].
      destruct (Z_lt_dec 0 z); [done |]. exfalso.
      assert (Qle_bool (inject_Z z) 0 = true); [| congruence].
      apply Qle_bool_iff. unfold Qle; simpl. lia.
    + unfold bad_ttl, py_le0 in Hb; simpl in Hb.
      destruct (Qlt_le_dec 0 q); [done |].
      apply Qle_bool_iff in q0. congruence.
Qed.

Lemma bad_ttl_positive v : positive_number v → bad_ttl v = false.
Proof. intros H. apply bad_ttl_false. by left. Qed.

Lemma valid_checked d : valid_status d → checked_status d.
Proof.
  intros (Hr & Hl & ttl & Httl & Hpos). repeat split; [done | done |].
  exists ttl. split; [done | by apply bad_ttl_positive].
Qed.

Lemma require_fields_ok l d fields w :
  heap w !! l = Some d →
  Forall (fun f => is_Some (d !! f)) fields →
  require_fields l fields w = (Return (), w).
Proof.
  intros Hl. induction 1 as [|f rest Hf _ IH]; [done |].
  simpl. rewrite (bind_return _ _ _ _ _ (contains_ok _ f _ _ Hl)).
  rewrite bool_decide_true by done. simpl.
  by rewrite (bind_return _ _ w () w).
Qed.

Lemma require_fields_missing l d fields w :
  heap w !! l = Some d →
  Exists (fun f => d !! f = None) fields →
  ∃ msg, require_fields l fields w = (Raise (PyException msg), w).
Proof.
  intros Hl. induction fields as [|f rest IH]; intros Hex.
  - by apply Exists_nil in Hex.
  - simpl. rewrite (bind_return _ _ _ _ _ (contains_ok _ f _ _ Hl)).
    destruct (d !! f) as [v|] eqn:Hf.
    + rewrite bool_decide_true by eauto. simpl.
      rewrite (bind_return _ _ w () w) by done.
      apply IH. apply Exists_cons in Hex as [Hex|Hex]; [congruence | done].
    + rewrite bool_decide_false by (by intros [? ?]). simpl.
      eexists. unfold mbind, M_bind, raise. reflexivity.
Qed.

Lemma heartbeat_missing_field E w status_info d :
  heap w !! status_info = Some d →
  Exists (fun f => d !! f = None) ["role"; "ttl"; "load"] →
  ∃ msg, heartbeat E status_info w = (Raise (PyException msg), w).
Proof.
  intros Hl Hex. unfold heartbeat.
  destruct (require_fields_missing _ _ _ _ Hl Hex) as [msg Hr].
  exists msg. by rewrite (bind_raise _ _ _ _ _ Hr).
Qed.

Lemma heartbeat_bad_ttl E w status_info d ttl :
  heap w !! status_info = Some d →
  Forall (fun f => is_Some (d !! f)) ["role"; "ttl"; "load"] →
  d !! "ttl" = Some ttl →
  bad_ttl ttl = true →
  ∃ msg, heartbeat E status_info w = (Raise (PyException msg), w).
Proof.
  intros Hl Hall Httl Hbad. unfold heartbeat.
  rewrite (bind_return _ _ _ _ _ (require_fields_ok _ _ _ _ Hl Hall)).
  rewrite (bind_return _ _ _ _ _ (getitem_ok _ _ _ _ _ Hl Httl)).
  rewrite Hbad. simpl.
  eexists. unfold mbind, M_bind, raise. reflexivity.
Qed.

Lemma required_fields_cases (d : dict) :
  Exists (fun f => d !! f = None) ["role"; "ttl"; "load"] ∨
  Forall (fun f => is_Some (d !! f)) ["role"; "ttl"; "load"].
Proof.
  destruct (decide (Exists (fun f => d !! f = None) ["role"; "ttl"; "load"]))
    as [Hex|Hall]; [by left | right].
  apply not_Exists_Forall in Hall; [| intros f; simpl; apply _].
  eapply Forall_impl; [exact Hall |]. simpl. intros f Hf.
  destruct (d !! f); [eauto | done].
Qed.

(** X24.  A status that lacks 'role', 'load' or 'ttl', or whose 'ttl' is
    neither an int nor a float or is a number [<= 0], makes [heartbeat]
    raise its validation exception, and the world is left exactly as it
    was: no query is sent, the table, the caller's dicts and the log are
    untouched. *)
Theorem heartbeat_rejects_refused_status (E : env) (w : world) (status_info : loc) (d : dict) :
  heap w !! status_info = Some d →
  refused_status d →
  ∃ msg, heartbeat E status_info w = (Raise (PyException msg), w).
Proof.
  intros Hl Hinv.
  destruct (required_fields_cases d) as [Hex|Hall].
  - by apply (heartbeat_missing_field _ _ _ d).
  - pose proof Hall as Hf. rewrite !Forall_cons in Hf.
    destruct Hf as ([r Hr] & [ttl Httl] & [ld Hld] & _).
    destruct Hinv as [H|[H|[H|(ttl' & H & Hbad)]]]; try congruence.
    assert (ttl' = ttl) as -> by congruence.
    apply (heartbeat_bad_ttl _ _ _ d ttl); [done | done | done |].
    by apply bad_ttl_spec.
Qed.

Lemma heartbeat_rejects_refused_status_witness :
  let d : dict := {[ "role" := VStr "worker"; "load" := VInt 0; "ttl" := VInt 0 ]} in
  ∃ msg, heartbeat sample_env 0%nat (world_of [d] ∅)
         = (Raise (PyException msg), world_of [d] ∅).
Proof.
  intros d.
  apply (heartbeat_rejects_refused_status sample_env (world_of [d] ∅) 0%nat d).
  - reflexivity.
  - right; right; right. exists (VInt 0). split; [reflexivity | simpl; lia].
Defined.

(** C6.  The code departs from the claim, and from the docstring of
    [heartbeat] ("Raises Exception if ... status_info['ttl'] is not a
    number greater than zero"), at a NaN.  The status
    [{'role': 'worker', 'load': 0.5, 'ttl': float('nan')}] is one the claim
    wants rejected, and NaN is no number greater than zero; yet line 144
    lets it pass ([isinstance(nan, float)] holds and [nan <= 0] is false):
    [heartbeat] raises nothing and sends the insert of the stamped copy. *)
Theorem heartbeat_accepts_nan_ttl :
  invalid_status nan_status ∧
  ¬ positive_number VNaN ∧
  bad_ttl VNaN = false ∧
  ∃ ret w' doc,
    heartbeat sample_env 0%nat (world_of [nan_status] ∅) = (Return ret, w') ∧
    queries w' = [QInsert doc] ∧
    doc !! "ttl" = Some (Lit VNaN).
Proof.
  split; [| split; [| split]].
  - right; right; right. exists VNaN. split; [reflexivity | simpl; tauto].
  - simpl. tauto.
  - reflexivity.
  - eexists _, _, _. split; [| split].
    + vm_compute. reflexivity.
    + reflexivity.
    + vm_compute. reflexivity.
Qed.

(** ** heartbeat on accepted input *)

(** The document [heartbeat] sends for a status that passes the checks. *)
Lemma heartbeat_checked E w l d :
  heap w !! l = Some d →
  checked_status d →
  heartbeat E l w =
    try_except
      (result ← run E (QInsert
          (setdefault_field "pid" (Lit (VInt (getpid E)))
            (setdefault_field "host" (Lit (VStr (gethostname E)))
              (setdefault_field "first_heartbeat" RNow
                (<["last_heartbeat" := RNow]> (Lit <$> d))))));
       match changes_of result with
       | c :: _ => alloc (new_val c)
       | [] => raise IndexError
       end)
      any_exception
      (log ERROR "error updating service registry";; mret l) w.
Proof.
  intros Hl (Hrole & Hload & ttl & Httl & Hpos). unfold heartbeat.
  assert (Hall : Forall (fun f => is_Some (d !! f)) ["role"; "ttl"; "load"])
    by (repeat constructor; eauto).
  rewrite (bind_return _ _ _ _ _ (require_fields_ok _ _ _ w Hl Hall)).
  rewrite (bind_return _ _ _ _ _ (getitem_ok _ _ _ _ _ Hl Httl)).
  rewrite Hpos. simpl.
  rewrite (bind_return _ _ w () w) by done.
  by rewrite (bind_return _ _ _ _ _ (deref_ok _ _ _ Hl)).
Qed.

Lemma heartbeat_accepts E w l d :
  heap w !! l = Some d →
  valid_status d →
  heartbeat E l w =
    try_except
      (result ← run E (QInsert
          (setdefault_field "pid" (Lit (VInt (getpid E)))
            (setdefault_field "host" (Lit (VStr (gethostname E)))
              (setdefault_field "first_heartbeat" RNow
                (<["last_heartbeat" := RNow]> (Lit <$> d))))));
       match changes_of result with
       | c :: _ => alloc (new_val c)
       | [] => raise IndexError
       end)
      any_exception
      (log ERROR "error updating service registry";; mret l) w.
Proof. intros Hl Hv. by apply heartbeat_checked, valid_checked. Qed.

Lemma run_unreachable E q w :
  unreachable E (length (queries w)) = true →
  run E q w = (Raise ReqlDriverError, after_query q (services w) w).
Proof. intros H. unfold run. by rewrite H. Qed.

(** C7.  When the round trip to the database fails during [heartbeat] on a
    valid status, the call does not raise: it logs the error and returns the
    very object it was given, whose contents (like every other dict and the
    table) are unchanged. *)
Theorem heartbeat_survives_storage_failure (E : env) (w : world) (status_info : loc) (d : dict) :
  heap w !! status_info = Some d →
  valid_status d →
  unreachable E (length (queries w)) = true →
  ∃ w', heartbeat E status_info w = (Return status_info, w') ∧
        heap w' = heap w ∧
        services w' = services w ∧
        logged w' = (logged w ++ [(ERROR, "error updating service registry")])%list.
Proof.
  intros Hl Hv Hdown. rewrite (heartbeat_accepts _ _ _ _ Hl Hv).
  unfold try_except.
  erewrite bind_raise by (by apply run_unreachable).
  simpl. eexists. split; [reflexivity |]. done.
Qed.

Lemma heartbeat_survives_storage_failure_witness :
  let d : dict := {[ "role" := VStr "worker"; "load" := VFloat (1#2); "ttl" := VInt 60 ]} in
  ∃ w', heartbeat offline_env 0%nat (world_of [d] ∅) = (Return 0%nat, w') ∧
        heap w' = [d] ∧
        services w' = ∅ ∧
        logged w' = [(ERROR, "error updating service registry")].
Proof.
  intros d.
  apply (heartbeat_survives_storage_failure offline_env (world_of [d] ∅) 0%nat d).
  - reflexivity.
  - repeat split; [by eexists | by eexists |].
    exists (VInt 60). split; [reflexivity | simpl; lia].
  - reflexivity.
Defined.

(** ** Mutation of the caller's dict *)

Lemma put_put l d1 d2 w : put l d2 (put l d1 w) = put l d2 w.
Proof. unfold put, set_heap. simpl. by rewrite list_insert_insert_eq. Qed.

Lemma put_id l d w : heap w !! l = Some d → put l d w = w.
Proof. intros H. destruct w. unfold put, set_heap. simpl in *. by rewrite list_insert_id. Qed.

Lemma heap_put l d w : (l < length (heap w))%nat → heap (put l d w) !! l = Some d.
Proof. intros H. simpl. by apply list_lookup_insert_eq. Qed.

Section on_object.
Context (l : loc) (w : world) (Hl : (l < length (heap w))%nat).

Lemma deref_put d : deref l (put l d w) = (Return d, put l d w).
Proof. apply deref_ok, heap_put, Hl. Qed.

Lemma setitem_put d k v :
  setitem l k v (put l d w) = (Return (), put l (<[k := v]> d) w).
Proof. rewrite (setitem_ok _ _ _ d) by apply heap_put, Hl. f_equal. apply put_put. Qed.

Lemma contains_put d k :
  contains l k (put l d w) = (Return (bool_decide (is_Some (d !! k))), put l d w).
Proof. apply contains_ok, heap_put, Hl. Qed.

Lemma setdefault_put d k v :
  setdefault l k v (put l d w) = (Return (), put l (dict_setdefault k v d) w).
Proof.
  unfold setdefault, dict_setdefault.
  rewrite (bind_return _ _ _ _ _ (contains_put d k)).
  destruct (d !! k) as [x|] eqn:Hk.
  - by rewrite bool_decide_true by eauto.
  - rewrite bool_decide_false by (by intros [? ?]). apply setitem_put.
Qed.

Lemma delitem_put d k x :
  d !! k = Some x →
  delitem l k (put l d w) = (Return (), put l (delete k d) w).
Proof.
  intros Hk. unfold delitem.
  rewrite (bind_return _ _ _ _ _ (deref_put d)). rewrite Hk.
  unfold store. f_equal. apply put_put.
Qed.
End on_object.

Lemma stamp_candidate_checked E role c now w d ttl :
  heap w !! c = Some d →
  d !! "ttl" = Some ttl →
  bad_ttl ttl = false →
  stamp_candidate E role c now w = (Return (), put c (stamped E role now d) w).
Proof.
  intros Hc Httl Hpos.
  assert (Hlt : (c < length (heap w))%nat) by (by eapply lookup_lt_Some).
  replace (stamp_candidate E role c now w)
    with (stamp_candidate E role c now (put c d w)) by (by rewrite put_id).
  unfold stamp_candidate.
  rewrite (bind_return _ _ _ _ _ (setitem_put c w Hlt d "id" (VStr role))).
  rewrite (bind_return _ _ _ _ _ (contains_put c w Hlt _ "ttl")).
  assert (Httl' : <["id" := VStr role]> d !! "ttl" = Some ttl)
    by (by rewrite lookup_insert_ne).
  rewrite bool_decide_true by eauto. simpl.
  rewrite (bind_return _ _ _ () (put c (<["id" := VStr role]> d) w)) by done.
  rewrite (bind_return _ _ _ _ _
             (getitem_ok _ _ _ _ _ (heap_put c _ w Hlt) Httl')).
  rewrite Hpos. simpl.
  rewrite (bind_return _ _ _ () (put c (<["id" := VStr role]> d) w)) by done.
  rewrite (bind_return _ _ _ _ _ (setitem_put c w Hlt _ _ _)).
  rewrite (bind_return _ _ _ _ _ (setitem_put c w Hlt _ _ _)).
  rewrite (bind_return _ _ _ _ _ (setdefault_put c w Hlt _ _ _)).
  apply (setdefault_put c w Hlt).
Qed.

Lemma stamp_candidate_accepts E role c now w d ttl :
  heap w !! c = Some d →
  d !! "ttl" = Some ttl →
  positive_number ttl →
  stamp_candidate E role c now w = (Return (), put c (stamped E role now d) w).
Proof.
  intros Hc Httl Hpos.
  by apply (stamp_candidate_checked _ _ _ _ _ _ ttl), bad_ttl_positive.
Qed.

Lemma stamp_candidate_rejects E role c now w d :
  heap w !! c = Some d →
  (d !! "ttl" = None ∨ ∃ ttl, d !! "ttl" = Some ttl ∧ refused_ttl ttl) →
  ∃ msg, stamp_candidate E role c now w
         = (Raise (PyException msg), put c (<["id" := VStr role]> d) w).
Proof.
  intros Hc Hbad.
  assert (Hlt : (c < length (heap w))%nat) by (by eapply lookup_lt_Some).
  replace (stamp_candidate E role c now w)
    with (stamp_candidate E role c now (put c d w)) by (by rewrite put_id).
  unfold stamp_candidate.
  rewrite (bind_return _ _ _ _ _ (setitem_put c w Hlt d "id" (VStr role))).
  rewrite (bind_return _ _ _ _ _ (contains_put c w Hlt _ "ttl")).
  assert (Hid : <["id" := VStr role]> d !! "ttl" = d !! "ttl")
    by (by rewrite lookup_insert_ne).
  destruct Hbad as [Hnone | (ttl & Httl & Hneg)].
  - rewrite bool_decide_false by (rewrite Hid, Hnone; by intros [? ?]).
    eexists. unfold mbind, M_bind, raise. simpl. reflexivity.
  - rewrite bool_decide_true by (rewrite Hid, Httl; eauto). simpl.
    rewrite (bind_return _ _ _ () (put c (<["id" := VStr role]> d) w)) by done.
    rewrite <- Hid in Httl.
    rewrite (bind_return _ _ _ _ _
               (getitem_ok _ _ _ ttl _ (heap_put c _ w Hlt) Httl)).
    apply bad_ttl_spec in Hneg. rewrite Hneg.
    eexists. unfold mbind, M_bind, raise. simpl. reflexivity.
Qed.

(** ** Validation in unique_service *)

Lemma read_clock_ok E w :
  read_clock E w = (Return (utcnow E (clock_reads w)), tick w).
Proof. reflexivity. Qed.

(** C3, as stated, fails: a candidate that has a valid 'ttl' but neither
    'role' nor 'load' is accepted, and queries are sent for it. *)
Lemma unique_service_accepts_candidate_without_role_and_load :
  invalid_status bare_candidate ∧
  ¬ rejected_before_storage (world_of [bare_candidate] ∅)
      (unique_service sample_env "leader" (Some 0%nat) (world_of [bare_candidate] ∅)).
Proof.
  split; [by left |].
  assert (Hrun : ∃ r w', unique_service sample_env "leader" (Some 0%nat)
                           (world_of [bare_candidate] ∅) = (Return r, w')).
  { eexists _, _. vm_compute. reflexivity. }
  destruct Hrun as (r & w' & Hrun). rewrite Hrun.
  intros (msg & Hraise & _). discriminate Hraise.
Qed.

(** C3, amended.  [unique_service] checks 'ttl' only: a candidate without
    'ttl', or whose 'ttl' is neither an int nor a float, or is a number
    [<= 0], makes the call raise the validation exception before any query
    is sent; the table is untouched.  'role' and 'load' are not asked for.
    (A NaN 'ttl' is not among the refused values; nothing is stated of
    it.) *)
Theorem unique_service_rejects_invalid_ttl (E : env) (role : string) (w : world)
    (candidate : loc) (d : dict) :
  heap w !! candidate = Some d →
  (d !! "ttl" = None ∨ ∃ ttl, d !! "ttl" = Some ttl ∧ refused_ttl ttl) →
  rejected_before_storage w (unique_service E role (Some candidate) w).
Proof.
  intros Hc Hbad. unfold unique_service.
  rewrite (bind_return _ _ _ _ _ (read_clock_ok E w)).
  destruct (stamp_candidate_rejects E role candidate (utcnow E (clock_reads w))
              (tick w) d Hc Hbad) as [msg Hst].
  erewrite bind_raise; [| erewrite bind_raise; [reflexivity | exact Hst]].
  by exists msg.
Qed.

Lemma unique_service_rejects_invalid_ttl_witness :
  let d : dict := {[ "role" := VStr "leader"; "ttl" := VFloat 0 ]} in
  rejected_before_storage (world_of [d] ∅)
    (unique_service sample_env "leader" (Some 0%nat) (world_of [d] ∅)).
Proof.
  intros d.
  apply (unique_service_rejects_invalid_ttl sample_env "leader" (world_of [d] ∅) 0%nat d).
  - reflexivity.
  - right. exists (VFloat 0). split; [reflexivity | simpl; lra].
Defined.

(** ** The conditional replace *)

Lemma Qltb_lt x y : Qltb x y = true ↔ x < y.
Proof.
  unfold Qltb. rewrite negb_true_iff.
  destruct (Qle_bool y x) eqn:H.
  - apply Qle_bool_iff in H. split; [done | intros Hlt; lra].
  - split; [intros _ | done].
    destruct (Qlt_le_dec x y) as [|Hle]; [done |].
    apply Qle_bool_iff in Hle. congruence.
Qed.

Lemma Qltb_ge x y : Qltb x y = false ↔ y <= x.
Proof.
  destruct (Qltb x y) eqn:H.
  - apply Qltb_lt in H. split; [done | intros; lra].
  - split; [intros _ | done].
    destruct (Qlt_le_dec x y) as [Hlt|]; [| done].
    apply Qltb_lt in Hlt. congruence.
Qed.

Lemma reql_sub_time_num now v x :
  reql_num v = Some x → reql_sub (VTime now) v = Val (VTime (now - x)).
Proof. destruct v; simpl; try done; by intros [= <-]. Qed.

(** On a row with a time 'last_heartbeat' and a numeric 'ttl' the test of
    [unique_service] is [last_heartbeat > now - ttl]. *)
Lemma fresh_at_typed now row lh ttl_v ttl :
  row !! "last_heartbeat" = Some (VTime lh) →
  row !! "ttl" = Some ttl_v →
  reql_num ttl_v = Some ttl →
  fresh_at now row = Val (Qltb (now - ttl) lh).
Proof.
  intros Hlh Httl Hnum. unfold fresh_at, reql_field. rewrite Hlh, Httl.
  unfold reql_bind at 1 2. by rewrite (reql_sub_time_num _ _ _ Hnum).
Qed.

(** The replace on the row keyed by [role], with a candidate whose 'id' is
    [role]: the row becomes the candidate when there is no row, or when the
    row's 'last_heartbeat' is not newer than [now - ttl]; when it is newer
    the table is left as it is. *)
Lemma claim_replaces_absent_or_stale (role : string) (now : Q)
    (candidate : dict) (t : table) :
  candidate !! "id" = Some (VStr role) →
  (t !! role = None →
     claim role now candidate t
     = (<[role := candidate]> t, [Change None candidate])) ∧
  (∀ row lh ttl_v ttl,
     t !! role = Some row →
     row !! "last_heartbeat" = Some (VTime lh) →
     row !! "ttl" = Some ttl_v →
     reql_num ttl_v = Some ttl →
     (lh <= now - ttl →
        claim role now candidate t
        = (<[role := candidate]> t, [Change (Some row) candidate])) ∧
     (now - ttl < lh →
        claim role now candidate t = (t, [Change (Some row) row]))).
Proof.
  intros Hid.
  assert (Hkey : has_key role candidate = true).
  { unfold has_key. rewrite Hid. apply String.eqb_refl. }
  split.
  - intros Hnone. unfold claim. rewrite Hnone. simpl. by rewrite Hkey.
  - intros row lh ttl_v ttl Hrow Hlh Httl Hnum.
    unfold claim. rewrite Hrow. simpl.
    rewrite (fresh_at_typed _ _ _ _ _ Hlh Httl Hnum). simpl. split.
    + intros Hstale. apply Qltb_ge in Hstale. rewrite Hstale. by rewrite Hkey.
    + intros Hfresh. apply Qltb_lt in Hfresh. rewrite Hfresh.
      rewrite (insert_id _ _ _ Hrow). by destruct (has_key role row).
Qed.

(** ** unique_service, step by step *)

Lemma run_reachable E q w t r :
  unreachable E (length (queries w)) = false →
  eval (generated_key E (length (queries w))) (r_now E (length (queries w))) q (services w)
  = Val (t, r) →
  run E q w = (Return r, after_query q t w).
Proof. intros Hup Hev. unfold run. by rewrite Hup, Hev. Qed.

Lemma has_key_id role d : d !! "id" = Some (VStr role) → has_key role d = true.
Proof. intros H. unfold has_key. rewrite H. apply String.eqb_refl. Qed.

(** With a candidate keyed by [role] the conditional replace always reports
    one change. *)
Lemma claim_changes role now sent t :
  sent !! "id" = Some (VStr role) →
  (claim role now sent t).2 = [Change (t !! role) (reported role now sent t)].
Proof.
  intros Hid. apply has_key_id in Hid. unfold reported, claim.
  destruct (t !! role) as [row|] eqn:Hrow; simpl.
  - destruct (fresh_at now row) as [[]| |]; simpl; try done.
    + by destruct (has_key role row).
    + by rewrite Hid.
  - by rewrite Hid.
Qed.

Lemma eval_claim k n role now sent t :
  eval k n (QClaim role now sent) t
  = Val ((claim role now sent t).1, RChanges (claim role now sent t).2).
Proof. simpl. by destruct (claim role now sent t). Qed.

(** What [elect] does, case by case. *)
Lemma elect_unfold E role c now w sent fh :
  heap w !! c = Some sent →
  sent !! "id" = Some (VStr role) →
  sent !! "first_heartbeat" = Some fh →
  let n := length (queries w) in
  let q := QClaim role now sent in
  let t1 := (claim role now sent (services w)).1 in
  let patch := delete "first_heartbeat" sent in
  elect E role c now w =
    if unreachable E n then (Raise ReqlDriverError, after_query q (services w) w)
    else if candidate_won (reported role now sent (services w)) sent then
      if unreachable E (S n)
      then (Raise ReqlDriverError,
            after_query (QUpdate role patch) t1 (put c patch (after_query q t1 w)))
      else (Return (),
            after_query (QUpdate role patch) (update role patch t1)
              (put c patch (after_query q t1 w)))
    else (Return (), after_query q t1 w).
Proof.
  intros Hc Hid Hfh n q t1 patch. unfold elect.
  rewrite (bind_return _ _ _ _ _ (deref_ok _ _ _ Hc)).
  destruct (unreachable E n) eqn:Hup.
  { by rewrite (bind_raise _ _ _ _ _ (run_unreachable _ _ _ Hup)). }
  rewrite (bind_return _ _ _ _ _
             (run_reachable _ _ _ _ _ Hup (eval_claim _ _ _ _ _ _))).
  rewrite (claim_changes _ _ _ _ Hid). cbn [changes_of new_val].
  fold t1 q.
  destruct (candidate_won _ sent); [| reflexivity]. simpl when.
  assert (Hlt : (c < length (heap (after_query q t1 w)))%nat)
    by (simpl; by eapply lookup_lt_Some).
  replace (after_query q t1 w) with (put c sent (after_query q t1 w)) at 1
    by (by apply put_id).
  rewrite (bind_return _ _ _ _ _
             (delitem_put c _ Hlt sent "first_heartbeat" fh Hfh)).
  fold patch.
  rewrite (bind_return _ _ _ _ _ (deref_put c _ Hlt patch)).
  assert (Hn : length (queries (put c patch (after_query q t1 w))) = S n).
  { simpl. rewrite length_app. simpl. unfold n. lia. }
  destruct (unreachable E (S n)) eqn:Hup2.
  - erewrite bind_raise; [reflexivity |].
    rewrite run_unreachable by (by rewrite Hn). done.
  - erewrite bind_return; [reflexivity |].
    apply run_reachable; [by rewrite Hn | done].
Qed.

Lemma read_back_unfold E role now w :
  let q := QGetFresh role now in
  read_back E role now w =
    if unreachable E (length (queries w))
    then (Raise ReqlDriverError, after_query q (services w) w)
    else match get_fresh role now (services w) with
         | Val rows => (Return (head rows), after_query q (services w) w)
         | NonExistence => (Raise ReqlNonExistenceError, after_query q (services w) w)
         | LogicError => (Raise ReqlQueryLogicError, after_query q (services w) w)
         end.
Proof.
  intros q. unfold read_back.
  destruct (unreachable E (length (queries w))) eqn:Hup.
  - by rewrite (bind_raise _ _ _ _ _ (run_unreachable _ _ _ Hup)).
  - unfold mbind, M_bind, run. rewrite Hup. simpl.
    by destruct (get_fresh role now (services w)).
Qed.

Lemma dict_setdefault_lookup k v d k' x :
  d !! k' = Some x → dict_setdefault k v d !! k' = Some x.
Proof.
  intros H. unfold dict_setdefault. destruct (d !! k) eqn:Hk; [done |].
  rewrite lookup_insert_ne; [done |]. intros ->. congruence.
Qed.

Lemma stamped_id E role now d : stamped E role now d !! "id" = Some (VStr role).
Proof.
  unfold stamped. do 2 apply dict_setdefault_lookup.
  rewrite !lookup_insert_ne by done. apply lookup_insert_eq.
Qed.

Lemma stamped_first_heartbeat E role now d :
  stamped E role now d !! "first_heartbeat" = Some (VTime now).
Proof.
  unfold stamped. do 2 apply dict_setdefault_lookup.
  rewrite lookup_insert_ne by done. apply lookup_insert_eq.
Qed.

(** With a candidate that passes the check of 'ttl', [unique_service]
    reads the clock, rewrites the candidate, and goes on to the election
    and the read. *)
Lemma unique_service_checked E role c w d ttl :
  heap w !! c = Some d →
  d !! "ttl" = Some ttl →
  bad_ttl ttl = false →
  let now := utcnow E (clock_reads w) in
  unique_service E role (Some c) w =
    (elect E role c now ≫= λ _, read_back E role now)
      (put c (stamped E role now d) (tick w)).
Proof.
  intros Hc Httl Hpos now. unfold unique_service.
  rewrite (bind_return _ _ _ _ _ (read_clock_ok E w)). fold now.
  unfold mbind at 1, M_bind at 1.
  rewrite (bind_return _ _ _ _ _
             (stamp_candidate_checked E role c now (tick w) d ttl Hc Httl Hpos)).
  unfold mbind, M_bind. by destruct (elect _ _ _ _ _) as [[[]|] ?].
Qed.

Lemma unique_service_accepts E role c w d ttl :
  heap w !! c = Some d →
  d !! "ttl" = Some ttl →
  positive_number ttl →
  let now := utcnow E (clock_reads w) in
  unique_service E role (Some c) w =
    (elect E role c now ≫= λ _, read_back E role now)
      (put c (stamped E role now d) (tick w)).
Proof.
  intros Hc Httl Hpos.
  by apply (unique_service_checked _ _ _ _ _ ttl), bad_ttl_positive.
Qed.

Lemma unique_service_lookup E role w :
  unique_service E role None w = read_back E role (utcnow E (clock_reads w)) (tick w).
Proof. reflexivity. Qed.

(** ** One reference time per call *)

Lemma unique_service_dangling E role c w :
  heap w !! c = None →
  unique_service E role (Some c) w = (Raise TypeError, tick w).
Proof.
  intros Hc. unfold unique_service.
  rewrite (bind_return _ _ _ _ _ (read_clock_ok E w)).
  unfold stamp_candidate, setitem, deref, mbind, M_bind. simpl. by rewrite Hc.
Qed.

Lemma unique_service_rejects E role c w d :
  heap w !! c = Some d →
  (d !! "ttl" = None ∨ ∃ ttl, d !! "ttl" = Some ttl ∧ refused_ttl ttl) →
  ∃ msg, unique_service E role (Some c) w
         = (Raise (PyException msg), put c (<["id" := VStr role]> d) (tick w)).
Proof.
  intros Hc Hbad. unfold unique_service.
  rewrite (bind_return _ _ _ _ _ (read_clock_ok E w)).
  destruct (stamp_candidate_rejects E role c (utcnow E (clock_reads w))
              (tick w) d Hc Hbad) as [msg Hst].
  exists msg.
  erewrite bind_raise; [reflexivity |]. erewrite bind_raise; [reflexivity | exact Hst].
Qed.

Lemma read_back_trace E role now w :
  ∃ o, read_back E role now w = (o, after_query (QGetFresh role now) (services w) w).
Proof.
  rewrite read_back_unfold.
  destruct (unreachable _ _); [by eexists |].
  destruct (get_fresh _ _ _); by eexists.
Qed.

(** ** The conditional replace in unique_service *)

Lemma run_claim E role now sent w :
  sent !! "id" = Some (VStr role) →
  unreachable E (length (queries w)) = false →
  run E (QClaim role now sent) w
  = (Return (RChanges [Change (services w !! role) (reported role now sent (services w))]),
     after_query (QClaim role now sent) (claim role now sent (services w)).1 w).
Proof.
  intros Hid Hup.
  rewrite (run_reachable _ _ _ _ _ Hup (eval_claim _ _ _ _ _ _)).
  by rewrite (claim_changes _ _ _ _ Hid).
Qed.

(** C1.  In [unique_service] with an accepted candidate, when the database
    answers the first query: that query is the conditional replace on the
    row keyed by [role], carrying the call's [now] and the stamped
    candidate, and it is the only replace the call sends.  Run on the table
    as the call finds it, it leaves the candidate as the row when there is
    no row, or when the row's 'last_heartbeat' is not newer than
    [now - ttl]; when it is newer the table is left as it is.  The row it
    returns is the row stored under [role] after the decision, and the rest
    of the call works on that table and that row. *)
Theorem unique_service_conditional_replace (E : env) (role : string) (w : world)
    (c : loc) (d : dict) (ttl_v : value) :
  heap w !! c = Some d →
  d !! "ttl" = Some ttl_v →
  positive_number ttl_v →
  let n := length (queries w) in
  unreachable E n = false →
  let now := utcnow E (clock_reads w) in
  let sent := stamped E role now d in
  let t := services w in
  let q := QClaim role now sent in
  let w1 := put c sent (tick w) in
  let r := unique_service E role (Some c) w in
  ∃ (t1 : table) (returned : dict) (later : list query),
    queries r.2 = (queries w ++ q :: later)%list ∧
    List.filter is_replace later = [] ∧
    run E q w1 = (Return (RChanges [Change (t !! role) returned]), after_query q t1 w1) ∧
    t1 !! role = Some returned ∧
    (t !! role = None → t1 = <[role := sent]> t ∧ returned = sent) ∧
    (∀ row lh ttl_r ttl,
       t !! role = Some row →
       row !! "last_heartbeat" = Some (VTime lh) →
       row !! "ttl" = Some ttl_r →
       reql_num ttl_r = Some ttl →
       (lh <= now - ttl → t1 = <[role := sent]> t ∧ returned = sent) ∧
       (now - ttl < lh → t1 = t ∧ returned = row)) ∧
    services r.2 =
      (if candidate_won returned sent && negb (unreachable E (S n))
       then update role (delete "first_heartbeat" sent) t1 else t1).
Proof.
  intros Hc Httl Hpos n Hup now sent t q w1 r.
  assert (Hid : sent !! "id" = Some (VStr role)) by apply stamped_id.
  assert (Hw1 : heap w1 !! c = Some sent).
  { apply heap_put. simpl. by eapply lookup_lt_Some. }
  exists (claim role now sent t).1, (reported role now sent t).
  assert (Hcases : (t !! role = None →
                     claim role now sent t = (<[role := sent]> t, [Change None sent])) ∧
                   (∀ row lh ttl_r ttl,
                     t !! role = Some row →
                     row !! "last_heartbeat" = Some (VTime lh) →
                     row !! "ttl" = Some ttl_r →
                     reql_num ttl_r = Some ttl →
                     (lh <= now - ttl →
                        claim role now sent t
                        = (<[role := sent]> t, [Change (Some row) sent])) ∧
                     (now - ttl < lh →
                        claim role now sent t = (t, [Change (Some row) row]))))
    by (by apply claim_replaces_absent_or_stale).
  destruct Hcases as [Habsent Hpresent].
  assert (Hrun : ∃ later,
    queries r.2 = (queries w ++ q :: later)%list ∧
    List.filter is_replace later = [] ∧
    services r.2 =
      (if candidate_won (reported role now sent t) sent && negb (unreachable E (S n))
       then update role (delete "first_heartbeat" sent) (claim role now sent t).1
       else (claim role now sent t).1)).
  { subst r. rewrite (unique_service_accepts _ _ _ _ _ _ Hc Httl Hpos).
    fold now sent w1. unfold mbind, M_bind.
    rewrite (elect_unfold E role c now w1 sent _ Hw1 Hid
               (stamped_first_heartbeat _ _ _ _)).
    cbv zeta. simpl queries. simpl services. fold n t q. rewrite Hup.
    destruct (candidate_won (reported role now sent t) sent);
      [destruct (unreachable E (S n)) |]; simpl.
    - by exists [QUpdate role (delete "first_heartbeat" sent)]; rewrite <- !app_assoc.
    - match goal with
      | |- context [read_back ?E0 ?r0 ?n0 ?w0] =>
          destruct (read_back_trace E0 r0 n0 w0) as [o ->]
      end. simpl.
      exists [QUpdate role (delete "first_heartbeat" sent); QGetFresh role now].
      by rewrite <- !app_assoc.
    - match goal with
      | |- context [read_back ?E0 ?r0 ?n0 ?w0] =>
          destruct (read_back_trace E0 r0 n0 w0) as [o ->]
      end. simpl.
      exists [QGetFresh role now]. by rewrite <- !app_assoc. }
  destruct Hrun as (later & Hq & Honce & Hfinal).
  exists later. split; [done |]. split; [done |]. split.
  { by apply run_claim. }
  split.
  { unfold reported, claim. fold t.
    destruct (t !! role) as [row|] eqn:Hrow; simpl.
    - destruct (fresh_at now row) as [[]| |]; simpl; try done.
      + destruct (has_key role row); simpl; [apply lookup_insert_eq | done].
      + rewrite (has_key_id role sent Hid). simpl. apply lookup_insert_eq.
    - rewrite (has_key_id role sent Hid). simpl. apply lookup_insert_eq. }
  split.
  { intros Hnone. unfold reported. by rewrite (Habsent Hnone). }
  split; [| done].
  intros row lh ttl_r ttl Hrow Hlh Httl_r Hnum.
  destruct (Hpresent row lh ttl_r ttl Hrow Hlh Httl_r Hnum) as [Hstale Hfresh].
  split; intros Hcmp; unfold reported.
  - by rewrite (Hstale Hcmp).
  - by rewrite (Hfresh Hcmp).
Qed.

Lemma unique_service_conditional_replace_witness :
  let w := world_of [bare_candidate] {[ "leader" := old_leader ]} in
  let sent := stamped sample_env "leader" 1000 bare_candidate in
  let q := QClaim "leader" 1000 sent in
  let w1 := put 0%nat sent (tick w) in
  (∃ later, queries (unique_service sample_env "leader" (Some 0%nat) w).2 = q :: later) ∧
  run sample_env q w1
  = (Return (RChanges [Change (Some old_leader) sent]),
     after_query q {[ "leader" := sent ]} w1).
Proof.
  intros w sent q w1.
  destruct (unique_service_conditional_replace sample_env "leader" w 0%nat
              bare_candidate (VInt 60))
    as (t1 & returned & later & Hq & _ & Hrun & _ & _ & Hpresent & _).
  - reflexivity.
  - reflexivity.
  - simpl. lia.
  - reflexivity.
  - destruct (Hpresent old_leader 900 (VInt 60) 60) as [Hstale _].
    + reflexivity.
    + reflexivity.
    + reflexivity.
    + reflexivity.
    + destruct Hstale as [Ht1 Hret].
      * unfold Qle. simpl. lia.
      * split; [by exists later |].
        subst t1 returned. refine (eq_trans Hrun _). vm_compute. reflexivity.
Defined.

Ltac solve_carries :=
  repeat first [apply Forall_nil_2 | apply Forall_cons_2; [auto |]].

(** C5.  One call of [unique_service] reads the clock exactly once, and
    every query it sends that tests liveness (the conditional replace and
    the final read) carries that one reading as its [now].  When the call
    returns, the final read is the last query sent and, with a candidate, the
    conditional replace is the first. *)
Theorem unique_service_single_now (E : env) (role : string) (candidate : option loc) (w : world) :
  let now := utcnow E (clock_reads w) in
  let r := unique_service E role candidate w in
  clock_reads r.2 = S (clock_reads w) ∧
  ∃ qs, queries r.2 = (queries w ++ qs)%list ∧
        Forall (carries now) qs ∧
        ∀ v, r.1 = Return v →
             (∃ earlier, qs = (earlier ++ [QGetFresh role now])%list) ∧
             (∀ c, candidate = Some c → ∃ sent later, qs = QClaim role now sent :: later).
Proof.
  intros now r. subst r.
  assert (Hc1 : ∀ sent, carries now (QClaim role now sent)) by (by intros sent t [= <-]).
  assert (Hc2 : carries now (QGetFresh role now)) by (by intros t [= <-]).
  assert (Hc3 : ∀ p, carries now (QUpdate role p)) by (by intros p t [=]).
  destruct candidate as [c|].
  2:{ rewrite unique_service_lookup. fold now.
      destruct (read_back_trace E role now (tick w)) as [o ->]. simpl.
      split; [done |]. exists [QGetFresh role now].
      split; [done |]. split; [solve_carries |].
      intros v _. split; [by exists [] | done]. }
  destruct (heap w !! c) as [d|] eqn:Hc.
  2:{ rewrite (unique_service_dangling _ _ _ _ Hc). simpl.
      split; [done |]. exists []. rewrite app_nil_r. by repeat split. }
  assert (Hcases : (∃ ttl, d !! "ttl" = Some ttl ∧ bad_ttl ttl = false) ∨
                   (d !! "ttl" = None ∨ ∃ ttl, d !! "ttl" = Some ttl ∧ refused_ttl ttl)).
  { destruct (d !! "ttl") as [ttl|]; [| by right; left].
    destruct (bad_ttl ttl) eqn:Hb.
    - apply bad_ttl_spec in Hb. right; right; eauto.
    - left; eauto. }
  destruct Hcases as [(ttl & Httl & Hpos) | Hbad].
  2:{ destruct (unique_service_rejects E role c w d Hc Hbad) as [msg ->]. simpl.
      split; [done |]. exists []. rewrite app_nil_r. by repeat split. }
  rewrite (unique_service_checked _ _ _ _ _ _ Hc Httl Hpos). fold now.
  set (sent := stamped E role now d).
  set (w1 := put c sent (tick w)).
  assert (Hw1 : heap w1 !! c = Some sent).
  { apply heap_put. simpl. by eapply lookup_lt_Some. }
  unfold mbind, M_bind.
  rewrite (elect_unfold E role c now w1 sent _ Hw1 (stamped_id _ _ _ _)
             (stamped_first_heartbeat _ _ _ _)).
  cbv zeta.
  repeat match goal with
  | |- context [if ?b then _ else _] => destruct b
  end.
  all: try match goal with
  | |- context [read_back ?E0 ?r0 ?n0 ?w0] =>
      destruct (read_back_trace E0 r0 n0 w0) as [o ->]
  end.
  all: simpl.
  all: split; [done |].
  - exists [QClaim role now sent].
    split; [done |]. split; [solve_carries |]. intros v Hv; discriminate.
  - exists [QClaim role now sent; QUpdate role (delete "first_heartbeat" sent)].
    rewrite <- app_assoc.
    split; [done |]. split; [solve_carries |]. intros v Hv; discriminate.
  - exists [QClaim role now sent; QUpdate role (delete "first_heartbeat" sent);
            QGetFresh role now].
    rewrite <- !app_assoc. split; [done |]. split; [solve_carries |].
    intros v _. split; [by eexists [_; _] | by eexists _, _].
  - exists [QClaim role now sent; QGetFresh role now].
    rewrite <- !app_assoc. split; [done |]. split; [solve_carries |].
    intros v _. split; [by eexists [_] | by eexists _, _].
Qed.

Lemma unique_service_single_now_witness :
  let w := world_of [bare_candidate] ∅ in
  let now := utcnow sample_env (clock_reads w) in
  let r := unique_service sample_env "leader" (Some 0%nat) w in
  clock_reads r.2 = S (clock_reads w) ∧
  ∃ qs, queries r.2 = (queries w ++ qs)%list ∧
        Forall (carries now) qs ∧
        ∀ v, r.1 = Return v →
             (∃ earlier, qs = (earlier ++ [QGetFresh "leader" now])%list) ∧
             (∀ c, Some 0%nat = Some c →
                   ∃ sent later, qs = QClaim "leader" now sent :: later).
Proof.
  exact (unique_service_single_now sample_env "leader" (Some 0%nat)
           (world_of [bare_candidate] ∅)).
Defined.

(** ** Looking the unique service up *)

Lemma get_fresh_absent role now t :
  t !! role = None → get_fresh role now t = Val [].
Proof. intros H. unfold get_fresh, get_all_pk. by rewrite H. Qed.

Lemma get_fresh_typed role now t row lh ttl_v ttl :
  t !! role = Some row →
  row !! "last_heartbeat" = Some (VTime lh) →
  row !! "ttl" = Some ttl_v →
  reql_num ttl_v = Some ttl →
  get_fresh role now t = Val (if Qltb (now - ttl) lh then [row] else []).
Proof.
  intros Hrow Hlh Httl Hnum. unfold get_fresh, get_all_pk. rewrite Hrow. simpl.
  rewrite (fresh_at_typed _ _ _ _ _ Hlh Httl Hnum). simpl.
  by destruct (Qltb _ _).
Qed.

(** C10.  Without a candidate [unique_service] only reads: the one query it
    sends is the filtered read, and table and dicts are as before whatever
    the outcome.  When the database answers, the result is the row keyed by
    [role] if [now - last_heartbeat < ttl] holds for it, and [None] if the
    row is stale or there is no such row. *)
Theorem unique_service_without_candidate (E : env) (role : string) (w : world) :
  let now := utcnow E (clock_reads w) in
  let r := unique_service E role None w in
  services r.2 = services w ∧
  heap r.2 = heap w ∧
  queries r.2 = (queries w ++ [QGetFresh role now])%list ∧
  (unreachable E (length (queries w)) = false →
   (services w !! role = None → r.1 = Return None) ∧
   (∀ row lh ttl_v ttl,
      services w !! role = Some row →
      row !! "last_heartbeat" = Some (VTime lh) →
      row !! "ttl" = Some ttl_v →
      reql_num ttl_v = Some ttl →
      (now - lh < ttl → r.1 = Return (Some row)) ∧
      (ttl <= now - lh → r.1 = Return None))).
Proof.
  intros now r. subst r. rewrite unique_service_lookup. fold now.
  rewrite read_back_unfold. cbv zeta. simpl length. simpl services.
  destruct (unreachable E (length (queries w))) eqn:Hup.
  { by repeat split. }
  split; [by destruct (get_fresh _ _ _) |].
  split; [by destruct (get_fresh _ _ _) |].
  split; [by destruct (get_fresh _ _ _) |].
  intros _. split.
  - intros Hnone. by rewrite (get_fresh_absent _ _ _ Hnone).
  - intros row lh ttl_v ttl Hrow Hlh Httl Hnum.
    rewrite (get_fresh_typed _ _ _ _ _ _ _ Hrow Hlh Httl Hnum). split.
    + intros Hh. assert (Hlt : now - ttl < lh) by lra.
      apply Qltb_lt in Hlt. by rewrite Hlt.
    + intros Hs. assert (Hge : lh <= now - ttl) by lra.
      apply Qltb_ge in Hge. by rewrite Hge.
Qed.

Lemma unique_service_without_candidate_witness :
  (unique_service sample_env "leader" None (world_of [] {[ "leader" := old_leader ]})).1
  = Return None.
Proof.
  refine (proj2 (proj2 (proj2 (proj2 (proj2
            (unique_service_without_candidate sample_env "leader"
               (world_of [] {[ "leader" := old_leader ]})))) eq_refl)
            old_leader 900 (VInt 60) 60 eq_refl eq_refl eq_refl eq_refl) _).
  vm_compute. discriminate.
Defined.

(** ** Recognising the winner *)

Lemma timestamp_field_false k :
  timestamp_field k = false ↔ k ≠ "first_heartbeat" ∧ k ≠ "last_heartbeat".
Proof.
  unfold timestamp_field. rewrite orb_false_iff, !String.eqb_neq. done.
Qed.

Lemma candidate_won_spec row candidate :
  candidate_won row candidate = true ↔ candidate_fields_match row candidate.
Proof.
  unfold candidate_won, candidate_fields_match. rewrite forallb_forall. split.
  - intros H k v Hk Hf Hl. apply (H (k, v)).
    apply filter_In. split.
    + apply list_elem_of_In, elem_of_map_to_list, Hk.
    + simpl. apply negb_true_iff, timestamp_field_false. done.
  - intros H [k v] Hin. apply filter_In in Hin as [Hin Hts]. simpl in *.
    apply list_elem_of_In, elem_of_map_to_list in Hin.
    apply negb_true_iff, timestamp_field_false in Hts as [Hf Hl]. by apply H.
Qed.

(** C2, as stated, fails: the live incumbent's row has a field 'node' that
    the candidate lacks, yet the candidate is taken for the winner and the
    heartbeat update is sent. *)
Lemma winner_recognized_despite_extra_row_field :
  let w := world_of [bare_candidate] {[ "leader" := incumbent ]} in
  let sent := stamped sample_env "leader" 1000 bare_candidate in
  let row := reported "leader" 1000 sent (services w) in
  row !! "node" = Some (VStr "a") ∧ sent !! "node" = None ∧
  ¬ (candidate_won row sent = true ↔ rows_agree row sent) ∧
  QUpdate "leader" (delete "first_heartbeat" sent)
    ∈ queries (unique_service sample_env "leader" (Some 0%nat) w).2.
Proof.
  intros w sent row. split; [by vm_compute |]. split; [by vm_compute |]. split.
  - intros [H _]. specialize (H ltac:(by vm_compute) "node" ltac:(done) ltac:(done)).
    vm_compute in H. done.
  - vm_compute. apply list_elem_of_further, list_elem_of_here.
Qed.

(** C2, amended.  In [unique_service] with an accepted candidate and a
    conditional replace that reaches the database, the candidate is taken
    for the winner exactly when every field of the candidate other than
    'first_heartbeat' and 'last_heartbeat' equals the value the returned row
    has for that field ([None] when the row lacks it); fields that only the
    returned row has are not compared.  The heartbeat update (the candidate
    without 'first_heartbeat') is sent exactly in that case. *)
Theorem winner_iff_candidate_fields_match (E : env) (role : string) (w : world)
    (candidate : loc) (d : dict) (ttl : value) :
  heap w !! candidate = Some d →
  d !! "ttl" = Some ttl →
  positive_number ttl →
  unreachable E (length (queries w)) = false →
  let now := utcnow E (clock_reads w) in
  let sent := stamped E role now d in
  let row := reported role now sent (services w) in
  let r := unique_service E role (Some candidate) w in
  (candidate_won row sent = true ↔ candidate_fields_match row sent) ∧
  ∃ qs, queries r.2 = (queries w ++ QClaim role now sent :: qs)%list ∧
        (candidate_fields_match row sent ↔
         QUpdate role (delete "first_heartbeat" sent) ∈ qs) ∧
        (∀ key patch, QUpdate key patch ∈ qs →
                      key = role ∧ patch = delete "first_heartbeat" sent).
Proof.
  intros Hc Httl Hpos Hup now sent row r. subst r.
  split; [apply candidate_won_spec |].
  rewrite (unique_service_accepts _ _ _ _ _ _ Hc Httl Hpos). fold now sent.
  set (w1 := put candidate sent (tick w)).
  assert (Hw1 : heap w1 !! candidate = Some sent).
  { apply heap_put. simpl. by eapply lookup_lt_Some. }
  unfold mbind, M_bind.
  rewrite (elect_unfold E role candidate now w1 sent _ Hw1 (stamped_id _ _ _ _)
             (stamped_first_heartbeat _ _ _ _)).
  cbv zeta. simpl queries. simpl services. rewrite Hup. fold row.
  pose proof (candidate_won_spec row sent) as Hspec.
  destruct (candidate_won row sent) eqn:Hwon.
  - destruct (unreachable E (S (length (queries w)))).
    + simpl. exists [QUpdate role (delete "first_heartbeat" sent)].
      rewrite <- app_assoc. split; [done |]. split.
      * split; [intros _; apply list_elem_of_here | intros _; by apply Hspec].
      * intros key patch Hin. apply list_elem_of_singleton in Hin. by simplify_eq.
    + match goal with
      | |- context [read_back ?E0 ?r0 ?n0 ?w0] =>
          destruct (read_back_trace E0 r0 n0 w0) as [o ->]
      end. simpl.
      exists [QUpdate role (delete "first_heartbeat" sent); QGetFresh role now].
      rewrite <- !app_assoc. split; [done |]. split.
      * split; [intros _; apply list_elem_of_here | intros _; by apply Hspec].
      * intros key patch Hin. apply elem_of_cons in Hin as [Hin|Hin]; [by simplify_eq |].
        apply list_elem_of_singleton in Hin. done.
  - match goal with
    | |- context [read_back ?E0 ?r0 ?n0 ?w0] =>
        destruct (read_back_trace E0 r0 n0 w0) as [o ->]
    end. simpl.
    exists [QGetFresh role now]. rewrite <- !app_assoc. split; [done |]. split.
    + split; [intros Hm; apply Hspec in Hm; done |].
      intros Hin. apply list_elem_of_singleton in Hin. done.
    + intros key patch Hin. apply list_elem_of_singleton in Hin. done.
Qed.

Lemma winner_iff_candidate_fields_match_witness :
  let w := world_of [bare_candidate] {[ "leader" := incumbent ]} in
  let now := utcnow sample_env 0 in
  let sent := stamped sample_env "leader" now bare_candidate in
  let row := reported "leader" now sent (services w) in
  (candidate_won row sent = true ↔ candidate_fields_match row sent) ∧
  ∃ qs, queries (unique_service sample_env "leader" (Some 0%nat) w).2
        = QClaim "leader" now sent :: qs ∧
        (candidate_fields_match row sent ↔
         QUpdate "leader" (delete "first_heartbeat" sent) ∈ qs) ∧
        (∀ key patch, QUpdate key patch ∈ qs →
                      key = "leader" ∧ patch = delete "first_heartbeat" sent).
Proof.
  intros w now sent row.
  apply (winner_iff_candidate_fields_match sample_env "leader" w 0%nat
           bare_candidate (VInt 60)).
  - reflexivity.
  - reflexivity.
  - simpl. lia.
  - reflexivity.
Defined.

(** ** The caller's dict *)

Lemma heartbeat_dangling E l w :
  heap w !! l = None → heartbeat E l w = (Raise TypeError, w).
Proof.
  intros H. unfold heartbeat. simpl.
  unfold contains, deref, mbind, M_bind. by rewrite H.
Qed.

Lemma heartbeat_heap E l w :
  heap w `prefix_of` heap (heartbeat E l w).2.
Proof.
  destruct (heap w !! l) as [d|] eqn:Hl.
  2:{ by rewrite (heartbeat_dangling _ _ _ Hl). }
  destruct (required_fields_cases d) as [Hex|Hall].
  { by destruct (heartbeat_missing_field E w l d Hl Hex) as [msg ->]. }
  pose proof Hall as Hf. rewrite !Forall_cons in Hf.
  destruct Hf as (Hrole & [ttl Httl] & Hload & _).
  destruct (bad_ttl ttl) eqn:Hb.
  { by destruct (heartbeat_bad_ttl E w l d ttl Hl Hall Httl Hb) as [msg ->]. }
  assert (Hv : checked_status d) by (repeat split; eauto).
  rewrite (heartbeat_checked _ _ _ _ Hl Hv).
  unfold try_except, mbind, M_bind, run.
  destruct (unreachable E (length (queries w))); [done |].
  simpl eval. destruct (insert_replace _ _ _ _) as [t' cs]. simpl.
  destruct cs as [|ch cs]; simpl; [done |].
  by apply prefix_app_r.
Qed.

Lemma unique_service_heap E role c w d ttl :
  heap w !! c = Some d →
  d !! "ttl" = Some ttl →
  positive_number ttl →
  let now := utcnow E (clock_reads w) in
  let sent := stamped E role now d in
  let won := negb (unreachable E (length (queries w))) &&
             candidate_won (reported role now sent (services w)) sent in
  heap (unique_service E role (Some c) w).2
  = <[c := if won then delete "first_heartbeat" sent else sent]> (heap w).
Proof.
  intros Hc Httl Hpos now sent won. subst won.
  rewrite (unique_service_accepts _ _ _ _ _ _ Hc Httl Hpos). fold now sent.
  set (w1 := put c sent (tick w)).
  assert (Hw1 : heap w1 !! c = Some sent).
  { apply heap_put. simpl. by eapply lookup_lt_Some. }
  unfold mbind, M_bind.
  rewrite (elect_unfold E role c now w1 sent _ Hw1 (stamped_id _ _ _ _)
             (stamped_first_heartbeat _ _ _ _)).
  cbv zeta. simpl queries. simpl services.
  destruct (unreachable E (length (queries w))); [done |].
  destruct (candidate_won _ sent).
  - destruct (unreachable E (S (length (queries w)))).
    + simpl. apply list_insert_insert_eq.
    + match goal with
      | |- context [read_back ?E0 ?r0 ?n0 ?w0] =>
          destruct (read_back_trace E0 r0 n0 w0) as [o ->]
      end. simpl. apply list_insert_insert_eq.
  - match goal with
    | |- context [read_back ?E0 ?r0 ?n0 ?w0] =>
        destruct (read_back_trace E0 r0 n0 w0) as [o ->]
    end. done.
Qed.

(** C9, as stated, fails for [unique_service]: the call accepts the candidate
    and leaves the caller's dict rewritten. *)
Lemma unique_service_rewrites_candidate :
  let w := world_of [bare_candidate] ∅ in
  let r := unique_service sample_env "leader" (Some 0%nat) w in
  heap w !! 0%nat = Some bare_candidate ∧
  (∃ v, r.1 = Return v) ∧
  heap r.2 !! 0%nat ≠ Some bare_candidate.
Proof.
  intros w r. split; [done |]. split.
  - eexists. vm_compute. reflexivity.
  - intros H. apply (f_equal (fun o => o ≫= (fun d : dict => d !! "id"))) in H.
    vm_compute in H. discriminate H.
Qed.

(** C9, amended.  [heartbeat] never changes the dict it is given, nor any
    other dict that existed before the call: it works on a copy.
    [unique_service] with an accepted candidate rewrites the caller's dict
    in place: 'id' becomes the role, 'first_heartbeat' and 'last_heartbeat'
    become [now], 'host' and 'pid' are filled in if absent, and
    'first_heartbeat' is deleted again when the candidate is taken for the
    winner.  No other dict is touched. *)
Theorem caller_dict_after_normalization (E : env) (w : world) (l : loc) (d : dict) :
  heap w !! l = Some d →
  heap (heartbeat E l w).2 !! l = Some d ∧
  heap w `prefix_of` heap (heartbeat E l w).2 ∧
  ∀ role ttl,
    d !! "ttl" = Some ttl →
    positive_number ttl →
    let now := utcnow E (clock_reads w) in
    let sent := stamped E role now d in
    let won := negb (unreachable E (length (queries w))) &&
               candidate_won (reported role now sent (services w)) sent in
    heap (unique_service E role (Some l) w).2
    = <[l := if won then delete "first_heartbeat" sent else sent]> (heap w).
Proof.
  intros Hl. split; [| split].
  - by apply (prefix_lookup_Some _ _ _ _ Hl), heartbeat_heap.
  - apply heartbeat_heap.
  - intros role ttl Httl Hpos. by apply (unique_service_heap _ _ _ _ _ ttl).
Qed.

Lemma caller_dict_after_normalization_witness :
  let w := world_of [bare_candidate] ∅ in
  let sent := stamped sample_env "leader" (utcnow sample_env 0) bare_candidate in
  heap (unique_service sample_env "leader" (Some 0%nat) w).2
  = [delete "first_heartbeat" sent].
Proof.
  intros w sent.
  exact (proj2 (proj2 (caller_dict_after_normalization sample_env w 0%nat
                         bare_candidate eq_refl))
           "leader" (VInt 60) eq_refl ltac:(simpl; lia)).
Defined.

(** ** Purging stale services *)

Lemma reql_filter_Val {A} (f : A → reql bool) (l : list A) :
  Forall (fun x => f x ≠ LogicError) l →
  reql_filter f l = Val (List.filter (selects f) l).
Proof.
  induction 1 as [|x l Hx _ IH]; [done |].
  simpl. unfold selects at 1. destruct (f x) as [[]| |]; try done; by rewrite IH.
Qed.

Lemma purgeable_typed now m row lh ttl :
  last_heartbeat_of row = Some lh →
  ttl_of row = Some ttl →
  purgeable now (VInt m) row = Val (Qltb (ttl * inject_Z m) (now - lh)).
Proof.
  unfold last_heartbeat_of, ttl_of, purgeable, reql_field.
  destruct (row !! "last_heartbeat") as [[]|]; try done. intros [= ->].
  destruct (row !! "ttl") as [v|]; [| done]. simpl. intros Hnum.
  unfold reql_mul. rewrite Hnum. simpl. done.
Qed.

Lemma lookup_delete_all (t : table) (doomed : list (string * dict)) k :
  foldr (fun kv acc => delete kv.1 acc) t doomed !! k
  = if bool_decide (k ∈ doomed.*1) then None else t !! k.
Proof.
  induction doomed as [|[k' row] doomed IH]; [done |].
  simpl. destruct (decide (k' = k)) as [->|Hne].
  - rewrite lookup_delete_eq. rewrite bool_decide_true; [done | apply list_elem_of_here].
  - rewrite lookup_delete_ne by done. rewrite IH.
    apply (f_equal (fun b : bool => if b then None else t !! k)).
    apply bool_decide_ext. rewrite elem_of_cons. simpl.
    split; [by right | by intros [? | ?]].
Qed.

Lemma purge_lookup now m (t : table) :
  (∀ k row, t !! k = Some row → purgeable now m row ≠ LogicError) →
  ∃ t' n, purge now m t = Val (t', n) ∧
    ∀ k, t' !! k = match t !! k with
                   | Some row => if selects (purgeable now m) row then None else Some row
                   | None => None
                   end.
Proof.
  intros Hok. unfold purge.
  rewrite reql_filter_Val.
  2:{ apply Forall_forall. intros [k row] Hin. simpl.
      apply elem_of_map_to_list in Hin. by eapply Hok. }
  simpl. eexists _, _. split; [done |]. intros k.
  rewrite lookup_delete_all.
  set (doomed := List.filter _ _).
  destruct (t !! k) as [row|] eqn:Hk.
  - destruct (selects (purgeable now m) row) eqn:Hsel.
    + rewrite bool_decide_true; [done |].
      apply list_elem_of_fmap. exists (k, row). split; [done |].
      apply list_elem_of_In, filter_In. split; [| done].
      by apply list_elem_of_In, elem_of_map_to_list.
    + rewrite bool_decide_false; [done |].
      intros Hin. apply list_elem_of_fmap in Hin as ([k' row'] & Heq & Hin).
      simpl in Heq. subst k'.
      apply list_elem_of_In, filter_In in Hin as [Hin Hsel'].
      apply list_elem_of_In, elem_of_map_to_list in Hin.
      assert (row' = row) as -> by congruence.
      unfold selects in Hsel, Hsel'. simpl in Hsel'. congruence.
  - by destruct (bool_decide _).
Qed.

Lemma purge_stale_services_services E m w t' n :
  unreachable E (length (queries w)) = false →
  purge (r_now E (length (queries w))) (default (VInt 2) m) (services w) = Val (t', n) →
  services (purge_stale_services E m w).2 = t'.
Proof.
  intros Hup Hp. unfold purge_stale_services, log, run, mbind, M_bind. simpl.
  rewrite Hup. simpl. by rewrite Hp.
Qed.

(** C8.  [purge_stale_services()] with its default multiplier 2, on a table
    none of whose rows makes the filter fail with a type error: a row whose
    staleness [now - last_heartbeat] exceeds [2 * ttl] is deleted; a row
    whose staleness is at most [2 * ttl], so also one that is merely
    unhealthy, stays as it is; no row appears. *)
Theorem purge_removes_rows_stale_beyond_twice_ttl (E : env) (w : world) :
  unreachable E (length (queries w)) = false →
  let now := r_now E (length (queries w)) in
  (∀ k row, services w !! k = Some row → purgeable now (VInt 2) row ≠ LogicError) →
  let r := purge_stale_services E None w in
  (∀ k, services w !! k = None → services r.2 !! k = None) ∧
  (∀ k row lh ttl,
     services w !! k = Some row →
     last_heartbeat_of row = Some lh →
     ttl_of row = Some ttl →
     (2 * ttl < now - lh → services r.2 !! k = None) ∧
     (now - lh <= 2 * ttl → services r.2 !! k = Some row)).
Proof.
  intros Hup now Hok r. subst r.
  destruct (purge_lookup now (VInt 2) (services w) Hok) as (t' & n & Hp & Hlk).
  rewrite (purge_stale_services_services E None w t' n Hup Hp).
  split.
  - intros k Hk. by rewrite Hlk, Hk.
  - intros k row lh ttl Hk Hlh Httl. rewrite Hlk, Hk.
    unfold selects. rewrite (purgeable_typed _ _ _ _ _ Hlh Httl). split.
    + intros Hlt. assert (H : ttl * inject_Z 2 < now - lh) by (unfold inject_Z; lra).
      apply Qltb_lt in H. by rewrite H.
    + intros Hle. assert (H : now - lh <= ttl * inject_Z 2) by (unfold inject_Z; lra).
      apply Qltb_ge in H. by rewrite H.
Qed.

Lemma purge_removes_rows_stale_beyond_twice_ttl_witness :
  services (purge_stale_services sample_env None
              (world_of [] {[ "w1" := old_worker ]})).2 !! "w1" = None.
Proof.
  refine (proj1 (proj2 (purge_removes_rows_stale_beyond_twice_ttl sample_env
                          (world_of [] {[ "w1" := old_worker ]}) eq_refl _)
                   "w1" old_worker 850 60 eq_refl eq_refl eq_refl) _).
  - intros k row Hk. simpl in Hk. apply lookup_singleton_Some in Hk as [_ <-].
    vm_compute. discriminate.
  - vm_compute. reflexivity.
Defined.

(** ** The least loaded healthy service *)

(** [String.ltb] is the strict part of a total order. *)
Lemma string_ltb_lt a b : String.ltb a b = true ↔ OrderedTypeEx.String_as_OT.lt a b.
Proof.
  unfold String.ltb. rewrite <- OrderedTypeEx.String_as_OT.cmp_lt.
  unfold OrderedTypeEx.String_as_OT.cmp. by destruct (String.compare a b).
Qed.

Lemma string_ltb_asym a b : String.ltb a b = true → String.ltb b a = false.
Proof.
  intros H. destruct (String.ltb b a) eqn:Hba; [| done].
  apply string_ltb_lt in H, Hba.
  pose proof (OrderedTypeEx.String_as_OT.lt_trans _ _ _ H Hba) as Haa.
  by apply OrderedTypeEx.String_as_OT.lt_not_eq in Haa.
Qed.

Lemma string_ltb_negtrans a b c :
  String.ltb a b = false → String.ltb b c = false → String.ltb a c = false.
Proof.
  intros Hab Hbc. destruct (String.ltb a c) eqn:Hac; [| done]. exfalso.
  apply string_ltb_lt in Hac.
  assert (Hnab : ¬ OrderedTypeEx.String_as_OT.lt a b)
    by (intros H; apply string_ltb_lt in H; congruence).
  assert (Hnbc : ¬ OrderedTypeEx.String_as_OT.lt b c)
    by (intros H; apply string_ltb_lt in H; congruence).
  destruct (OrderedTypeEx.String_as_OT.compare a b) as [H|H|H]; [done | |].
  - unfold OrderedTypeEx.String_as_OT.eq in H. by subst.
  - apply Hnbc. by eapply OrderedTypeEx.String_as_OT.lt_trans.
Qed.


Lemma reql_lt_asym a b : reql_lt a b = true → reql_lt b a = false.
Proof.
  destruct a as [|[]|?|?|?|?|], b as [|[]|?|?|?|?|]; simpl; try done;
    try (rewrite Qltb_lt, Qltb_ge; lra).
  apply string_ltb_asym.
Qed.

Lemma reql_lt_negtrans a b c :
  reql_lt a b = false → reql_lt b c = false → reql_lt a c = false.
Proof.
  destruct a as [|[]|?|?|?|?|], b as [|[]|?|?|?|?|], c as [|[]|?|?|?|?|];
    simpl; try done; try (rewrite !Qltb_ge; lra).
  apply string_ltb_negtrans.
Qed.

Lemma load_lt_asym a b : load_lt a b = true → load_lt b a = false.
Proof.
  unfold load_lt. destruct (a !! "load"), (b !! "load"); try done.
  apply reql_lt_asym.
Qed.

Lemma load_lt_negtrans a b c :
  load_lt a b = false → load_lt b c = false → load_lt a c = false.
Proof.
  unfold load_lt. destruct (a !! "load"), (b !! "load"), (c !! "load"); try done.
  apply reql_lt_negtrans.
Qed.

Lemma load_lt_irrefl a : load_lt a a = false.
Proof. destruct (load_lt a a) eqn:H; [| done]. by rewrite (load_lt_asym _ _ H) in H. Qed.

Lemma elem_of_insert_by_load x row l :
  x ∈ insert_by_load row l ↔ x = row ∨ x ∈ l.
Proof.
  induction l as [|r l IH]; simpl.
  - rewrite list_elem_of_singleton, elem_of_nil. tauto.
  - destruct (load_lt r row); rewrite !elem_of_cons; [rewrite IH |]; tauto.
Qed.

Lemma elem_of_order_by_load x l : x ∈ order_by_load l ↔ x ∈ l.
Proof.
  induction l as [|r l IH]; simpl; [done |].
  rewrite elem_of_insert_by_load, elem_of_cons, IH. done.
Qed.

Lemma insert_by_load_head row l best rest :
  (∀ h t, l = h :: t → least h l) →
  insert_by_load row l = best :: rest →
  least best (row :: l).
Proof.
  destruct l as [|h t]; simpl.
  - intros _ [= <- <-] x Hx. apply list_elem_of_singleton in Hx as ->.
    apply load_lt_irrefl.
  - intros Hl. specialize (Hl h t eq_refl).
    destruct (load_lt h row) eqn:Hlt; intros [= <- <-] x Hx.
    + apply elem_of_cons in Hx as [->|Hx]; [by apply load_lt_asym | by apply Hl].
    + apply elem_of_cons in Hx as [->|Hx]; [apply load_lt_irrefl |].
      eapply load_lt_negtrans; [by apply Hl | done].
Qed.

Lemma order_by_load_head l best rest :
  order_by_load l = best :: rest → least best l.
Proof.
  revert best rest. induction l as [|row l IH]; [done |].
  simpl. intros best rest Hs.
  eapply insert_by_load_head in Hs; [| ].
  - intros x Hx. apply Hs. 
    apply elem_of_cons in Hx as [->|Hx]; [apply list_elem_of_here |].
    apply list_elem_of_further. by apply elem_of_order_by_load.
  - intros h t Hht x Hx. eapply IH; [done |]. by apply elem_of_order_by_load.
Qed.

Lemma order_by_load_nil l : order_by_load l = [] → l = [].
Proof.
  destruct l as [|row l]; [done |]. simpl.
  destruct (order_by_load l) as [|h t]; simpl; [done |]. by destruct (load_lt h row).
Qed.

Lemma has_role_spec role row :
  has_role role row = true ↔ row !! "role" = Some (VStr role).
Proof.
  unfold has_role. destruct (row !! "role") as [[]|]; try (split; done).
  rewrite String.eqb_eq. split; [by intros -> | by intros [= ->]].
Qed.

Lemma elem_of_get_all_role role t row :
  row ∈ get_all_role role t ↔ record_of_role t role row.
Proof.
  unfold get_all_role, record_of_role.
  rewrite list_elem_of_In, filter_In, <- list_elem_of_In, has_role_spec.
  rewrite list_elem_of_fmap. split.
  - intros [([k r] & -> & Hin) Hrole]. apply elem_of_map_to_list in Hin. eauto.
  - intros (k & Hk & Hrole). split; [| done].
    exists (k, row). split; [done |]. by apply elem_of_map_to_list.
Qed.

Lemma healthy_at_typed now row lh ttl :
  last_heartbeat_of row = Some lh →
  ttl_of row = Some ttl →
  healthy_at now row = Val (Qltb (now - lh) ttl).
Proof.
  unfold last_heartbeat_of, ttl_of, healthy_at, reql_field.
  destruct (row !! "last_heartbeat") as [[]|]; try done. intros [= ->].
  destruct (row !! "ttl") as [v|]; [| done]. simpl.
  by destruct v; simpl; try done; intros [= <-].
Qed.

Lemma healthy_selects now row : healthy now row → selects (healthy_at now) row = true.
Proof.
  intros (lh & ttl & Hlh & Httl & Hlt). unfold selects.
  rewrite (healthy_at_typed _ _ _ _ Hlh Httl). apply Qltb_lt in Hlt. by rewrite Hlt.
Qed.

Lemma down_selects now row : down now row → selects (healthy_at now) row = false.
Proof.
  intros (lh & ttl & Hlh & Httl & Hle). unfold selects.
  rewrite (healthy_at_typed _ _ _ _ Hlh Httl). apply Qltb_ge in Hle. by rewrite Hle.
Qed.

Lemma healthy_service_unfold E role w :
  unreachable E (length (queries w)) = false →
  healthy_service E role w =
    (match healthy_first role (r_now E (length (queries w))) (services w) with
     | Val row => Return (Some row)
     | NonExistence => Return None
     | LogicError => Raise ReqlQueryLogicError
     end, after_query (QHealthy role) (services w) w).
Proof.
  intros Hup. unfold healthy_service, try_except, mbind, M_bind, run.
  rewrite Hup. simpl. by destruct (healthy_first _ _ _).
Qed.

Lemma typed_no_error now row :
  down now row ∨ healthy now row → healthy_at now row ≠ LogicError.
Proof.
  intros [(lh & ttl & Hlh & Httl & _) | (lh & ttl & Hlh & Httl & _)];
    by rewrite (healthy_at_typed _ _ _ _ Hlh Httl).
Qed.

Lemma load_lt_numeric a b la lb :
  load_of a = Some la → load_of b = Some lb → load_lt a b = false → lb <= la.
Proof.
  unfold load_of, load_lt.
  destruct (a !! "load") as [va|]; [| done]. destruct (b !! "load") as [vb|]; [| done].
  simpl. intros Ha Hb.
  destruct va, vb; simpl in *; try done; simplify_eq; by rewrite Qltb_ge.
Qed.

Lemma order_by_load_filter_head (f : dict → bool) l best rest :
  order_by_load (List.filter f l) = best :: rest → best ∈ l ∧ f best = true.
Proof.
  intros Hs.
  assert (Hin : best ∈ order_by_load (List.filter f l))
    by (rewrite Hs; apply list_elem_of_here).
  apply (proj1 (elem_of_order_by_load _ _)) in Hin.
  apply (proj1 (list_elem_of_In _ _)) in Hin.
  apply (proj1 (filter_In _ _ _)) in Hin as [Hin Hf].
  split; [by apply list_elem_of_In | done].
Qed.

Lemma elem_of_filter_selects (f : dict → bool) l x :
  x ∈ l → f x = true → x ∈ List.filter f l.
Proof. intros Hin Hf. apply list_elem_of_In, filter_In. split; [by apply list_elem_of_In | done]. Qed.

(** C4.  [healthy_service(role)], when the database answers.  It does not
    write.  If every stored record of the role is down
    ([now - last_heartbeat >= ttl]) it returns [None].  If the records of the
    role are each down or healthy and one is healthy, it returns a healthy
    record of the role that no healthy record of the role sorts before by
    'load'; for numeric loads its load is the minimum.  The result is a
    function of the table, the role and the server's [now] alone. *)
Theorem healthy_service_least_loaded (E : env) (role : string) (w : world) :
  unreachable E (length (queries w)) = false →
  let now := r_now E (length (queries w)) in
  let t := services w in
  let r := healthy_service E role w in
  services r.2 = t ∧
  ((∀ row, record_of_role t role row → down now row) → r.1 = Return None) ∧
  ((∀ row, record_of_role t role row → down now row ∨ healthy now row) →
   (∃ row, record_of_role t role row ∧ healthy now row) →
   ∃ best, r.1 = Return (Some best) ∧
           record_of_role t role best ∧ healthy now best ∧
           ∀ other, record_of_role t role other → healthy now other →
                    load_lt other best = false ∧
                    ∀ lb lo, load_of best = Some lb → load_of other = Some lo →
                             lb <= lo) ∧
  (∀ E' w',
     services w' = t →
     unreachable E' (length (queries w')) = false →
     r_now E' (length (queries w')) = now →
     (healthy_service E' role w').1 = r.1).
Proof.
  intros Hup now t r. subst r. rewrite (healthy_service_unfold _ _ _ Hup).
  fold now t. simpl. split; [done |].
  assert (Hfilter : (∀ row, record_of_role t role row → down now row ∨ healthy now row) →
     healthy_first role now t
     = nth0 (order_by_load (List.filter (selects (healthy_at now)) (get_all_role role t)))).
  { intros Htyped. unfold healthy_first. rewrite reql_filter_Val; [done |].
    apply Forall_forall. intros row Hin. apply typed_no_error, Htyped.
    by apply elem_of_get_all_role. }
  split; [| split].
  - intros Hdown. rewrite Hfilter by (intros; left; auto).
    destruct (order_by_load _) as [|best rest] eqn:Hs; [done |]. exfalso.
    apply order_by_load_filter_head in Hs as [Hin Hsel].
    apply (proj1 (elem_of_get_all_role _ _ _)) in Hin.
    rewrite (down_selects _ _ (Hdown _ Hin)) in Hsel. done.
  - intros Htyped (row & Hrow & Hh). rewrite (Hfilter Htyped).
    destruct (order_by_load _) as [|best rest] eqn:Hs.
    { apply order_by_load_nil in Hs.
      assert (Hin : row ∈ List.filter (selects (healthy_at now)) (get_all_role role t)).
      { apply elem_of_filter_selects; [| by apply healthy_selects].
        by apply elem_of_get_all_role. }
      rewrite Hs in Hin. by apply elem_of_nil in Hin. }
    simpl. exists best. split; [done |].
    pose proof (order_by_load_head _ _ _ Hs) as Hleast.
    apply order_by_load_filter_head in Hs as [Hin Hsel].
    apply (proj1 (elem_of_get_all_role _ _ _)) in Hin.
    split; [done |]. split.
    { destruct (Htyped _ Hin) as [Hd|]; [| done].
      rewrite (down_selects _ _ Hd) in Hsel. done. }
    intros other Hother Hoh.
    assert (Hlt : load_lt other best = false).
    { apply Hleast.
      apply elem_of_filter_selects; [| by apply healthy_selects].
      by apply elem_of_get_all_role. }
    split; [done |]. intros lb lo Hlb Hlo. by eapply load_lt_numeric.
  - intros E' w' Ht Hup' Hnow. rewrite (healthy_service_unfold _ _ _ Hup').
    simpl. by rewrite Ht, Hnow.
Qed.

Lemma healthy_service_least_loaded_witness :
  let r := healthy_service (server_at 10) "worker" (world_of [] workers) in
  ∃ best, r.1 = Return (Some best) ∧
          record_of_role workers "worker" best ∧ healthy 10 best ∧
          ∀ other, record_of_role workers "worker" other → healthy 10 other →
                   load_lt other best = false ∧
                   ∀ lb lo, load_of best = Some lb → load_of other = Some lo →
                            lb <= lo.
Proof.
  intros r.
  assert (Hb : healthy 10 worker_b).
  { exists 0, (inject_Z 60). repeat split; vm_compute; reflexivity. }
  assert (Ha : healthy 10 worker_a).
  { exists 0, (inject_Z 60). repeat split; vm_compute; reflexivity. }
  refine (proj1 (proj2 (proj2 (healthy_service_least_loaded (server_at 10) "worker"
                                 (world_of [] workers) eq_refl))) _ _).
  - intros row (k & Hk & _). right. simpl in Hk. unfold workers in Hk.
    apply lookup_insert_Some in Hk as [[_ <-] | [_ Hk]]; [exact Ha |].
    apply lookup_singleton_Some in Hk as [_ <-]. exact Hb.
  - exists worker_b. split; [| exact Hb]. by exists "B".
Defined.

(** The example of the specification: A (load 0.9) and B (load 0.3) heartbeat
    at t = 0 with ttl 60; at t = 10 the lookup returns B, at t = 70 nothing. *)
Example healthy_service_at_10 :
  (healthy_service (server_at 10) "worker" (world_of [] workers)).1
  = Return (Some worker_b).
Proof. vm_compute. reflexivity. Qed.

Example healthy_service_at_70 :
  (healthy_service (server_at 70) "worker" (world_of [] workers)).1 = Return None.
Proof. vm_compute. reflexivity. Qed.

(** * Further properties of the registry *)

(** ** heartbeat, when the database answers *)

Lemma fmap_setdefault_field now k f (m : gmap string field) :
  eval_field now <$> setdefault_field k f m
  = dict_setdefault k (eval_field now f) (eval_field now <$> m).
Proof.
  unfold setdefault_field, dict_setdefault. rewrite lookup_fmap.
  destruct (m !! k); simpl; [done |]. by rewrite fmap_insert.
Qed.

Lemma eval_lit now (d : dict) : eval_field now <$> (Lit <$> d) = d.
Proof.
  rewrite <- map_fmap_compose. apply map_eq. intros k.
  rewrite lookup_fmap. by destruct (d !! k).
Qed.

Lemma heartbeat_doc E now d :
  eval_field now <$>
    setdefault_field "pid" (Lit (VInt (getpid E)))
      (setdefault_field "host" (Lit (VStr (gethostname E)))
        (setdefault_field "first_heartbeat" RNow
          (<["last_heartbeat" := RNow]> (Lit <$> d))))
  = normalized E now d.
Proof.
  rewrite !fmap_setdefault_field, fmap_insert, eval_lit. done.
Qed.

Lemma dict_setdefault_lookup_ne k v d k' :
  k ≠ k' → dict_setdefault k v d !! k' = d !! k'.
Proof.
  intros Hne. unfold dict_setdefault. destruct (d !! k); [done |].
  by rewrite lookup_insert_ne.
Qed.

Lemma dict_setdefault_lookup_eq k v d :
  dict_setdefault k v d !! k = Some (default v (d !! k)).
Proof.
  unfold dict_setdefault. destruct (d !! k) eqn:H; simpl; [done |].
  apply lookup_insert_eq.
Qed.

(** What [heartbeat] does once the status is accepted and the database
    answers. *)
Lemma heartbeat_reachable E w l d :
  heap w !! l = Some d →
  checked_status d →
  unreachable E (length (queries w)) = false →
  let n := length (queries w) in
  let doc := setdefault_field "pid" (Lit (VInt (getpid E)))
      (setdefault_field "host" (Lit (VStr (gethostname E)))
        (setdefault_field "first_heartbeat" RNow
          (<["last_heartbeat" := RNow]> (Lit <$> d)))) in
  let ins := insert_replace (generated_key E n) (r_now E n) doc (services w) in
  heartbeat E l w =
    match ins.2 with
    | ch :: _ =>
        (Return (length (heap w)),
         World (heap w ++ [new_val ch]) ins.1 (clock_reads w)
               (queries w ++ [QInsert doc]) (logged w))
    | [] =>
        (Return l,
         World (heap w) ins.1 (clock_reads w) (queries w ++ [QInsert doc])
               (logged w ++ [(ERROR, "error updating service registry")]))
    end.
Proof.
  intros Hl Hv Hup. cbv zeta. rewrite (heartbeat_checked _ _ _ _ Hl Hv).
  unfold try_except, mbind, M_bind, run. rewrite Hup.
  simpl eval. destruct (insert_replace _ _ _ _) as [t' cs]. simpl.
  by destruct cs.
Qed.

Lemma normalized_id E now d : normalized E now d !! "id" = d !! "id".
Proof.
  unfold normalized. rewrite !dict_setdefault_lookup_ne by done.
  by rewrite lookup_insert_ne.
Qed.

Lemma heartbeat_accepts_or_raises E w l d :
  heap w !! l = Some d →
  checked_status d ∨ ∃ msg, heartbeat E l w = (Raise (PyException msg), w).
Proof.
  intros Hl.
  destruct (required_fields_cases d) as [Hex|Hall].
  { right. by apply (heartbeat_missing_field _ _ _ d). }
  pose proof Hall as Hf. rewrite !Forall_cons in Hf.
  destruct Hf as (Hrole & [ttl Httl] & Hload & _).
  destruct (bad_ttl ttl) eqn:Hb.
  - right. by apply (heartbeat_bad_ttl _ _ _ d ttl).
  - left. repeat split; eauto.
Qed.

Lemma heartbeat_unreachable E w l d :
  heap w !! l = Some d →
  checked_status d →
  unreachable E (length (queries w)) = true →
  ∃ w', heartbeat E l w = (Return l, w').
Proof.
  intros Hl Hv Hdown. rewrite (heartbeat_checked _ _ _ _ Hl Hv).
  unfold try_except. erewrite bind_raise by (by apply run_unreachable).
  simpl. by eexists.
Qed.

Lemma insert_replace_keyed key now doc t k :
  (eval_field now <$> doc) !! "id" = Some (VStr k) →
  (∀ old, t !! k = Some old → same_doc old (eval_field now <$> doc) = false) →
  insert_replace key now doc t
  = (<[k := eval_field now <$> doc]> t, [Change (t !! k) (eval_field now <$> doc)]).
Proof.
  intros Hid Hnew. unfold insert_replace. rewrite Hid.
  destruct (t !! k) as [old|] eqn:Hk; [| done]. by rewrite (Hnew old eq_refl).
Qed.

Lemma insert_replace_unkeyed key now doc t :
  (eval_field now <$> doc) !! "id" = None →
  insert_replace key now doc t
  = (<[key := <["id" := VStr key]> (eval_field now <$> doc)]> t,
     [Change None (<["id" := VStr key]> (eval_field now <$> doc))]).
Proof. intros Hid. unfold insert_replace. by rewrite Hid. Qed.

(** X1.  A successful [heartbeat] with a string 'id' stores exactly the
    normalized status under that id, replacing whatever row was there (no
    field of the old row survives unless the status carries it), leaves all
    other rows alone, and returns a new dict equal to the stored row; the
    caller's dict stays as it was. *)
Theorem heartbeat_stores_record (E : env) (w : world) (l : loc) (d : dict) (k : string) :
  heap w !! l = Some d →
  valid_status d →
  unreachable E (length (queries w)) = false →
  d !! "id" = Some (VStr k) →
  let row := normalized E (r_now E (length (queries w))) d in
  (∀ old, services w !! k = Some old → same_doc old row = false) →
  let r := heartbeat E l w in
  r.1 = Return (length (heap w)) ∧
  heap r.2 = (heap w ++ [row])%list ∧
  services r.2 = <[k := row]> (services w) ∧
  logged r.2 = logged w.
Proof.
  intros Hl Hv Hup Hid row Hnew r. subst r.
  rewrite (heartbeat_reachable _ _ _ _ Hl (valid_checked _ Hv) Hup). cbv zeta.
  rewrite (insert_replace_keyed _ _ _ _ k).
  - simpl. by rewrite heartbeat_doc.
  - by rewrite heartbeat_doc, normalized_id.
  - by rewrite heartbeat_doc.
Qed.

(** X2.  A successful [heartbeat] without 'id' stores the normalized status,
    with 'id' set, under the key the database generates, and returns that
    row. *)
Theorem heartbeat_generates_id (E : env) (w : world) (l : loc) (d : dict) :
  heap w !! l = Some d →
  valid_status d →
  unreachable E (length (queries w)) = false →
  d !! "id" = None →
  let key := generated_key E (length (queries w)) in
  let row := <["id" := VStr key]> (normalized E (r_now E (length (queries w))) d) in
  let r := heartbeat E l w in
  r.1 = Return (length (heap w)) ∧
  heap r.2 = (heap w ++ [row])%list ∧
  services r.2 = <[key := row]> (services w).
Proof.
  intros Hl Hv Hup Hid key row r. subst r.
  rewrite (heartbeat_reachable _ _ _ _ Hl (valid_checked _ Hv) Hup). cbv zeta.
  rewrite insert_replace_unkeyed by (by rewrite heartbeat_doc, normalized_id).
  simpl. by rewrite heartbeat_doc.
Qed.

Lemma insert_replace_change key now doc t ch cs :
  (insert_replace key now doc t).2 = ch :: cs →
  ∃ k, new_val ch !! "id" = Some (VStr k) ∧
       (insert_replace key now doc t).1 !! k = Some (new_val ch) ∧
       (new_val ch = eval_field now <$> doc ∨
        (doc !! "id" = None ∧ new_val ch = <["id" := VStr key]> (eval_field now <$> doc))).
Proof.
  unfold insert_replace. rewrite lookup_fmap.
  destruct (doc !! "id") as [f|] eqn:Hid; simpl.
  - destruct (eval_field now f) as [| | | |k| |] eqn:Hf; simpl; try done.
    assert (Hd : (eval_field now <$> doc) !! "id" = Some (VStr k))
      by (by rewrite lookup_fmap, Hid; simpl; rewrite Hf).
    destruct (t !! k) as [old|].
    + destruct (same_doc old _); simpl; [done |].
      intros [= <- <-]. exists k. simpl. rewrite lookup_insert_eq. auto.
    + simpl. intros [= <- <-]. exists k. simpl. rewrite lookup_insert_eq. auto.
  - intros [= <- <-]. exists key. simpl. rewrite !lookup_insert_eq. auto.
Qed.

(** X3.  Whenever [heartbeat] returns an object other than its argument,
    that object is the row now stored under its 'id': 'last_heartbeat' is the
    server's time of the insert; 'first_heartbeat', 'host' and 'pid' are the
    caller's when the status has them and otherwise the insert time, the
    host name and the process id; every other field is the caller's. *)
Theorem heartbeat_returns_stored_record (E : env) (w : world) (l : loc) (d : dict)
    (ret : loc) (w' : world) :
  heap w !! l = Some d →
  heartbeat E l w = (Return ret, w') →
  ret ≠ l →
  let now := r_now E (length (queries w)) in
  ∃ row key,
    heap w' !! ret = Some row ∧
    row !! "id" = Some (VStr key) ∧
    services w' !! key = Some row ∧
    row !! "last_heartbeat" = Some (VTime now) ∧
    row !! "first_heartbeat" = Some (default (VTime now) (d !! "first_heartbeat")) ∧
    row !! "host" = Some (default (VStr (gethostname E)) (d !! "host")) ∧
    row !! "pid" = Some (default (VInt (getpid E)) (d !! "pid")) ∧
    ∀ k, k ∉ ["id"; "last_heartbeat"; "first_heartbeat"; "host"; "pid"] →
         row !! k = d !! k.
Proof.
  intros Hl Hrun Hne now.
  destruct (heartbeat_accepts_or_raises E w l d Hl) as [Hv | [msg Hr]];
    [| congruence].
  destruct (unreachable E (length (queries w))) eqn:Hup.
  { destruct (heartbeat_unreachable E w l d Hl Hv Hup) as (w2 & Hr). congruence. }
  rewrite (heartbeat_reachable _ _ _ _ Hl Hv Hup) in Hrun. cbv zeta in Hrun.
  destruct (insert_replace _ _ _ _).2 as [|ch cs] eqn:Hcs; [congruence |].
  injection Hrun as <- <-. simpl.
  destruct (insert_replace_change _ _ _ _ _ _ Hcs) as (key & Hkey & Hstored & Hrow).
  rewrite heartbeat_doc in Hrow. fold now in Hrow.
  exists (new_val ch), key. rewrite lookup_app_r, Nat.sub_diag by done.
  split; [done |]. split; [done |]. split; [done |].
  assert (Hfields : ∀ k, k ≠ "id" → new_val ch !! k = normalized E now d !! k).
  { intros k Hk. destruct Hrow as [-> | [_ ->]]; [done |]. by rewrite lookup_insert_ne. }
  rewrite !Hfields by done. unfold normalized.
  split.
  { rewrite !dict_setdefault_lookup_ne by done. apply lookup_insert_eq. }
  split.
  { rewrite !dict_setdefault_lookup_ne by done. rewrite dict_setdefault_lookup_eq.
    by rewrite lookup_insert_ne. }
  split.
  { rewrite dict_setdefault_lookup_ne by done. rewrite dict_setdefault_lookup_eq.
    rewrite dict_setdefault_lookup_ne by done. by rewrite lookup_insert_ne. }
  split.
  { rewrite dict_setdefault_lookup_eq. rewrite !dict_setdefault_lookup_ne by done.
    by rewrite lookup_insert_ne. }
  intros k Hk. rewrite !not_elem_of_cons in Hk. destruct Hk as (? & ? & ? & ? & ? & _).
  rewrite Hfields by done. unfold normalized.
  rewrite !dict_setdefault_lookup_ne by done.
  by rewrite lookup_insert_ne.
Qed.

(** ** From heartbeat to healthy_service *)

Lemma healthy_first_typed role now t :
  (∀ row, record_of_role t role row → down now row ∨ healthy now row) →
  healthy_first role now t
  = nth0 (order_by_load (List.filter (selects (healthy_at now)) (get_all_role role t))).
Proof.
  intros Htyped. unfold healthy_first. rewrite reql_filter_Val; [done |].
  apply Forall_forall. intros row Hin. apply typed_no_error, Htyped.
  by apply elem_of_get_all_role.
Qed.

(** A healthy record of the role makes [healthy_first] return a healthy record
    that does not sort after it. *)
Lemma healthy_first_some role now t row :
  (∀ x, record_of_role t role x → down now x ∨ healthy now x) →
  record_of_role t role row →
  healthy now row →
  ∃ best, healthy_first role now t = Val best ∧
          record_of_role t role best ∧ healthy now best ∧
          load_lt row best = false.
Proof.
  intros Htyped Hrow Hh. rewrite (healthy_first_typed _ _ _ Htyped).
  assert (Hin : row ∈ List.filter (selects (healthy_at now)) (get_all_role role t)).
  { apply elem_of_filter_selects; [| by apply healthy_selects].
    by apply elem_of_get_all_role. }
  destruct (order_by_load _) as [|best rest] eqn:Hs.
  { apply order_by_load_nil in Hs. rewrite Hs in Hin. by apply elem_of_nil in Hin. }
  exists best. split; [done |].
  pose proof (order_by_load_head _ _ _ Hs) as Hleast.
  apply order_by_load_filter_head in Hs as [Hb Hsel].
  apply (proj1 (elem_of_get_all_role _ _ _)) in Hb.
  split; [done |]. split; [| by apply Hleast].
  destruct (Htyped _ Hb) as [Hd|]; [| done].
  rewrite (down_selects _ _ Hd) in Hsel. done.
Qed.

Lemma normalized_role E now d : normalized E now d !! "role" = d !! "role".
Proof.
  unfold normalized. rewrite !dict_setdefault_lookup_ne by done.
  by rewrite lookup_insert_ne.
Qed.

Lemma normalized_ttl_of E now d : ttl_of (normalized E now d) = ttl_of d.
Proof.
  unfold ttl_of, normalized. rewrite !dict_setdefault_lookup_ne by done.
  by rewrite lookup_insert_ne.
Qed.

Lemma normalized_last_heartbeat_of E now d :
  last_heartbeat_of (normalized E now d) = Some now.
Proof.
  unfold last_heartbeat_of, normalized. rewrite !dict_setdefault_lookup_ne by done.
  by rewrite lookup_insert_eq.
Qed.

(** X4.  After a successful [heartbeat] for a role, a [healthy_service] for
    that role that runs less than [ttl] seconds later finds a healthy
    record, and one that does not sort after the record just stored. *)
Theorem heartbeat_then_healthy_service (E : env) (w : world) (l : loc) (d : dict)
    (k role : string) (ttl : Q) :
  heap w !! l = Some d →
  valid_status d →
  d !! "id" = Some (VStr k) →
  d !! "role" = Some (VStr role) →
  ttl_of d = Some ttl →
  let n := length (queries w) in
  let row := normalized E (r_now E n) d in
  (∀ old, services w !! k = Some old → same_doc old row = false) →
  unreachable E n = false →
  unreachable E (S n) = false →
  r_now E (S n) - r_now E n < ttl →
  (∀ x, record_of_role (services w) role x →
        down (r_now E (S n)) x ∨ healthy (r_now E (S n)) x) →
  ∃ best, (healthy_service E role (heartbeat E l w).2).1 = Return (Some best) ∧
          healthy (r_now E (S n)) best ∧
          load_lt row best = false.
Proof.
  intros Hl Hv Hid Hrole Httl n row Hnew Hup1 Hup2 Hsoon Htyped.
  rewrite (heartbeat_reachable _ _ _ _ Hl (valid_checked _ Hv) Hup1). cbv zeta.
  rewrite (insert_replace_keyed _ _ _ _ k);
    [| by rewrite heartbeat_doc, normalized_id | by rewrite heartbeat_doc].
  rewrite heartbeat_doc. fold n row. cbn [snd fst].
  set (w1 := World _ _ _ _ _).
  assert (Hn : length (queries w1) = S n).
  { simpl. rewrite length_app. simpl. unfold n. lia. }
  rewrite healthy_service_unfold by (by rewrite Hn). rewrite Hn. simpl.
  assert (Hh : healthy (r_now E (S n)) row).
  { exists (r_now E n), ttl. unfold row.
    split; [apply normalized_last_heartbeat_of |].
    split; [by rewrite normalized_ttl_of | done]. }
  destruct (healthy_first_some role (r_now E (S n)) (<[k := row]> (services w)) row)
    as (best & -> & _ & Hb & Hlt).
  - intros x (k' & Hk' & Hx). destruct (decide (k = k')) as [<-|Hne].
    + rewrite lookup_insert_eq in Hk'. injection Hk' as <-. by right.
    + rewrite lookup_insert_ne in Hk' by done. apply Htyped. by exists k'.
  - exists k. split; [apply lookup_insert_eq |]. unfold row. by rewrite normalized_role.
  - done.
  - by exists best.
Qed.

(** ** The election, scenario by scenario *)

Lemma read_back_reachable E role now w :
  unreachable E (length (queries w)) = false →
  read_back E role now w
  = (read_outcome role now (services w),
     after_query (QGetFresh role now) (services w) w).
Proof.
  intros Hup. rewrite read_back_unfold. cbv zeta. rewrite Hup.
  unfold read_outcome. by destruct (get_fresh _ _ _).
Qed.

Lemma unique_service_run E role c w d ttl_v :
  heap w !! c = Some d →
  d !! "ttl" = Some ttl_v →
  positive_number ttl_v →
  let n := length (queries w) in
  unreachable E n = false →
  unreachable E (S n) = false →
  let now := utcnow E (clock_reads w) in
  let sent := stamped E role now d in
  let won := candidate_won (reported role now sent (services w)) sent in
  (won = true → unreachable E (S (S n)) = false) →
  let t2 := elected role now sent (services w) in
  ∃ w', unique_service E role (Some c) w = (read_outcome role now t2, w') ∧
        services w' = t2 ∧
        clock_reads w' = S (clock_reads w) ∧
        heap w' = <[c := if won then delete "first_heartbeat" sent else sent]> (heap w) ∧
        queries w' = (queries w ++ QClaim role now sent ::
                        (if won then [QUpdate role (delete "first_heartbeat" sent)] else [])
                        ++ [QGetFresh role now])%list.
Proof.
  intros Hc Httl Hpos n Hup0 Hup1 now sent won Hup2 t2.
  rewrite (unique_service_accepts _ _ _ _ _ _ Hc Httl Hpos). fold now sent.
  set (w1 := put c sent (tick w)).
  assert (Hw1 : heap w1 !! c = Some sent).
  { apply heap_put. simpl. by eapply lookup_lt_Some. }
  unfold mbind, M_bind.
  rewrite (elect_unfold E role c now w1 sent _ Hw1 (stamped_id _ _ _ _)
             (stamped_first_heartbeat _ _ _ _)).
  cbv zeta. simpl queries. simpl services. fold n. rewrite Hup0.
  unfold t2, elected. fold won. destruct won.
  - rewrite Hup1. rewrite read_back_reachable.
    2:{ simpl. rewrite !length_app. simpl length.
        replace (length (queries w) + 1 + 1)%nat with (S (S n)) by (unfold n; lia).
        by apply Hup2. }
    eexists. split; [reflexivity |]. simpl.
    split; [done |]. split; [done |]. split; [apply list_insert_insert_eq |].
    by rewrite <- !app_assoc.
  - rewrite read_back_reachable.
    2:{ simpl. rewrite !length_app. simpl length.
        replace (length (queries w) + 1)%nat with (S n) by (unfold n; lia).
        done. }
    eexists. split; [reflexivity |]. simpl.
    split; [done |]. split; [done |]. split; [done |].
    by rewrite <- !app_assoc.
Qed.

(** Python's [==] is reflexive on everything but the NaN. *)
Lemma py_eq_refl v : v ≠ VNaN → py_eq v v = true.
Proof.
  destruct v as [|b|z|q|s|t|]; simpl; try done; intros _; try apply Qeq_bool_refl.
  apply String.eqb_refl.
Qed.

Lemma candidate_won_refl d : nan_free d → candidate_won d d = true.
Proof.
  intros Hd. apply candidate_won_spec. intros k v Hk _ _. unfold dict_get. rewrite Hk.
  apply py_eq_refl. intros ->. by apply (Hd k).
Qed.

Lemma nan_free_forallb d :
  forallb (fun kv => negb (is_nan kv.2)) (map_to_list d) = true → nan_free d.
Proof.
  rewrite forallb_forall. intros H k Hk.
  apply elem_of_map_to_list, list_elem_of_In, H in Hk. done.
Qed.

Lemma nan_free_insert k v d : v ≠ VNaN → nan_free d → nan_free (<[k := v]> d).
Proof.
  intros Hv Hd k'. destruct (decide (k = k')) as [<-|Hne].
  - rewrite lookup_insert_eq. congruence.
  - rewrite lookup_insert_ne by done. apply Hd.
Qed.

Lemma nan_free_setdefault k v d :
  v ≠ VNaN → nan_free d → nan_free (dict_setdefault k v d).
Proof.
  intros Hv Hd. unfold dict_setdefault. destruct (d !! k); [done |].
  by apply nan_free_insert.
Qed.

Lemma nan_free_stamped E role now d : nan_free d → nan_free (stamped E role now d).
Proof.
  intros Hd. unfold stamped.
  repeat first [apply nan_free_setdefault; [done |] | apply nan_free_insert; [done |]].
  done.
Qed.

Lemma last_heartbeat_of_Some row lh :
  last_heartbeat_of row = Some lh → row !! "last_heartbeat" = Some (VTime lh).
Proof.
  unfold last_heartbeat_of. destruct (row !! "last_heartbeat") as [[]|]; try done.
  by intros [= ->].
Qed.

Lemma ttl_of_Some row ttl :
  ttl_of row = Some ttl → ∃ v, row !! "ttl" = Some v ∧ reql_num v = Some ttl.
Proof.
  unfold ttl_of. destruct (row !! "ttl") as [v|]; [| done]. simpl. eauto.
Qed.

Lemma fresh_at_healthy now row : healthy now row → fresh_at now row = Val true.
Proof.
  intros (lh & ttl & Hlh & Httl & Hlt).
  apply last_heartbeat_of_Some in Hlh. apply ttl_of_Some in Httl as (v & Hv & Hnum).
  rewrite (fresh_at_typed _ _ _ _ _ Hlh Hv Hnum).
  assert (H : now - ttl < lh) by lra. apply Qltb_lt in H. by rewrite H.
Qed.

Lemma fresh_at_down now row : down now row → fresh_at now row = Val false.
Proof.
  intros (lh & ttl & Hlh & Httl & Hle).
  apply last_heartbeat_of_Some in Hlh. apply ttl_of_Some in Httl as (v & Hv & Hnum).
  rewrite (fresh_at_typed _ _ _ _ _ Hlh Hv Hnum).
  assert (H : lh <= now - ttl) by lra. apply Qltb_ge in H. by rewrite H.
Qed.

Lemma claim_vacant role now sent t :
  sent !! "id" = Some (VStr role) →
  vacant now role t →
  claim role now sent t = (<[role := sent]> t, [Change (t !! role) sent]).
Proof.
  intros Hid Hvac. apply has_key_id in Hid. unfold claim.
  destruct Hvac as [Hnone | (row & Hrow & Hdown)].
  - rewrite Hnone. simpl. by rewrite Hid.
  - rewrite Hrow. simpl. rewrite (fresh_at_down _ _ Hdown). simpl. by rewrite Hid.
Qed.

Lemma claim_held role now sent t row :
  t !! role = Some row →
  healthy now row →
  claim role now sent t = (t, [Change (Some row) row]).
Proof.
  intros Hrow Hh. unfold claim. rewrite Hrow. simpl.
  rewrite (fresh_at_healthy _ _ Hh). simpl.
  rewrite (insert_id _ _ _ Hrow). by destruct (has_key role row).
Qed.

Lemma delete_union_self (k : string) (m : dict) : delete k m ∪ m = m.
Proof.
  apply map_eq. intros i. rewrite lookup_union.
  destruct (decide (k = i)) as [<-|Hne].
  - rewrite lookup_delete_eq. by destruct (m !! k).
  - rewrite lookup_delete_ne by done. by destruct (m !! i).
Qed.

Lemma stamped_ttl E role now d : stamped E role now d !! "ttl" = d !! "ttl".
Proof.
  unfold stamped. rewrite !dict_setdefault_lookup_ne by done.
  by rewrite !lookup_insert_ne.
Qed.

Lemma reql_num_positive v x : reql_num v = Some x → 0 < x → positive_number v.
Proof.
  destruct v; simpl; try done; intros [= <-]; [| done].
  unfold Qlt. simpl. lia.
Qed.

Lemma get_fresh_row role now t row :
  t !! role = Some row → fresh_at now row = Val true →
  get_fresh role now t = Val [row].
Proof.
  intros Hrow Hf. unfold get_fresh, get_all_pk. rewrite Hrow. simpl. by rewrite Hf.
Qed.

Lemma stamped_last_heartbeat E role now d :
  stamped E role now d !! "last_heartbeat" = Some (VTime now).
Proof. unfold stamped. do 2 apply dict_setdefault_lookup. apply lookup_insert_eq. Qed.

Lemma fresh_at_stamped E role now d ttl_v ttl :
  d !! "ttl" = Some ttl_v → reql_num ttl_v = Some ttl → 0 < ttl →
  fresh_at now (stamped E role now d) = Val true.
Proof.
  intros Httl Hnum Hpos.
  rewrite (fresh_at_typed now _ now ttl_v ttl);
    [| apply stamped_last_heartbeat | by rewrite stamped_ttl | done].
  assert (H : now - ttl < now) by lra. apply Qltb_lt in H. by rewrite H.
Qed.

Lemma elected_vacant E role now d t :
  let sent := stamped E role now d in
  vacant now role t →
  reported role now sent t = sent ∧ elected role now sent t = <[role := sent]> t.
Proof.
  intros sent Hvac.
  pose proof (claim_vacant role now sent t (stamped_id _ _ _ _) Hvac) as Hcl.
  assert (Hrep : reported role now sent t = sent)
    by (unfold reported; by rewrite Hcl).
  split; [done |].
  unfold elected. rewrite Hrep, Hcl. simpl.
  destruct (candidate_won sent sent); [| done].
  unfold update. rewrite lookup_insert_eq, delete_union_self.
  rewrite (has_key_id role sent (stamped_id _ _ _ _)). apply insert_insert_eq.
Qed.

(** X5.  First claim and failover: when the role has no row, or its row is
    down at [now], [unique_service] with an accepted candidate (numeric
    'ttl') makes the candidate the row of the role and returns it; the
    caller's dict ends without 'first_heartbeat', provided none of its
    fields is a NaN (which is unequal to itself in the test of the
    winner). *)
Theorem unique_service_claims_vacant_role (E : env) (role : string) (w : world)
    (c : loc) (d : dict) (ttl_v : value) (ttl : Q) :
  heap w !! c = Some d →
  d !! "ttl" = Some ttl_v →
  reql_num ttl_v = Some ttl →
  0 < ttl →
  let n := length (queries w) in
  unreachable E n = false →
  unreachable E (S n) = false →
  unreachable E (S (S n)) = false →
  let now := utcnow E (clock_reads w) in
  let sent := stamped E role now d in
  vacant now role (services w) →
  let r := unique_service E role (Some c) w in
  r.1 = Return (Some sent) ∧
  services r.2 = <[role := sent]> (services w) ∧
  (nan_free d → heap r.2 = <[c := delete "first_heartbeat" sent]> (heap w)).
Proof.
  intros Hc Httl Hnum Hpos n Hup0 Hup1 Hup2 now sent Hvac r. subst r.
  destruct (unique_service_run E role c w d ttl_v Hc Httl
              (reql_num_positive _ _ Hnum Hpos) Hup0 Hup1 (fun _ => Hup2))
    as (w' & -> & Ht & _ & Hh & _).
  fold now sent in Ht, Hh |- *. simpl. rewrite Ht, Hh.
  destruct (elected_vacant E role now d (services w) Hvac) as [Hrep Hel].
  fold sent in Hrep, Hel.
  rewrite Hrep, Hel. split; [| split; [done |]].
  - unfold read_outcome.
    rewrite (get_fresh_row role now _ sent); [done | apply lookup_insert_eq |].
    by apply (fresh_at_stamped _ _ _ _ ttl_v ttl).
  - intros Hd. by rewrite (candidate_won_refl sent (nan_free_stamped _ _ _ _ Hd)).
Qed.

(** X6.  A candidate that differs from a healthy incumbent in some field it
    carries loses: the table is unchanged, no heartbeat update is sent (two
    queries in all), the incumbent's row is returned, and the caller's dict
    keeps its 'first_heartbeat'. *)
Theorem unique_service_loses_to_healthy_incumbent (E : env) (role : string) (w : world)
    (c : loc) (d : dict) (ttl_v : value) (incumbent : dict) :
  heap w !! c = Some d →
  d !! "ttl" = Some ttl_v →
  positive_number ttl_v →
  let n := length (queries w) in
  unreachable E n = false →
  unreachable E (S n) = false →
  let now := utcnow E (clock_reads w) in
  let sent := stamped E role now d in
  services w !! role = Some incumbent →
  healthy now incumbent →
  ¬ candidate_fields_match incumbent sent →
  let r := unique_service E role (Some c) w in
  r.1 = Return (Some incumbent) ∧
  services r.2 = services w ∧
  heap r.2 = <[c := sent]> (heap w) ∧
  queries r.2 = (queries w ++ [QClaim role now sent; QGetFresh role now])%list.
Proof.
  intros Hc Httl Hpos n Hup0 Hup1 now sent Hinc Hh Hdiff r. subst r.
  pose proof (claim_held role now sent (services w) incumbent Hinc Hh) as Hcl.
  assert (Hrep : reported role now sent (services w) = incumbent)
    by (unfold reported; by rewrite Hcl).
  assert (Hlost : candidate_won incumbent sent = false).
  { destruct (candidate_won incumbent sent) eqn:Hw; [| done].
    by apply candidate_won_spec in Hw. }
  destruct (unique_service_run E role c w d ttl_v Hc Httl Hpos Hup0 Hup1)
    as (w' & -> & Ht & _ & Hheap & Hq).
  { fold now sent. rewrite Hrep, Hlost. done. }
  fold now sent in Ht, Hheap, Hq |- *. simpl. rewrite Ht, Hheap, Hq.
  rewrite Hrep, Hlost.
  assert (Hel : elected role now sent (services w) = services w).
  { unfold elected. by rewrite Hrep, Hlost, Hcl. }
  rewrite Hel. split; [| done].
  unfold read_outcome.
  by rewrite (get_fresh_row role now _ incumbent Hinc (fresh_at_healthy _ _ Hh)).
Qed.

(** X7.  Renewal: when the healthy incumbent agrees with the candidate on
    every field the candidate carries, the candidate's fields are merged
    into the row; the row keeps the incumbent's 'first_heartbeat', gets
    'last_heartbeat' = [now], and is returned. *)
Theorem unique_service_renewal_keeps_first_heartbeat (E : env) (role : string)
    (w : world) (c : loc) (d : dict) (ttl_v : value) (ttl : Q) (incumbent : dict) :
  heap w !! c = Some d →
  d !! "ttl" = Some ttl_v →
  reql_num ttl_v = Some ttl →
  0 < ttl →
  let n := length (queries w) in
  unreachable E n = false →
  unreachable E (S n) = false →
  unreachable E (S (S n)) = false →
  let now := utcnow E (clock_reads w) in
  let sent := stamped E role now d in
  services w !! role = Some incumbent →
  healthy now incumbent →
  candidate_fields_match incumbent sent →
  let held := delete "first_heartbeat" sent ∪ incumbent in
  let r := unique_service E role (Some c) w in
  r.1 = Return (Some held) ∧
  services r.2 = <[role := held]> (services w) ∧
  held !! "first_heartbeat" = incumbent !! "first_heartbeat" ∧
  held !! "last_heartbeat" = Some (VTime now).
Proof.
  intros Hc Httl Hnum Hpos n Hup0 Hup1 Hup2 now sent Hinc Hh Hsame held r. subst r.
  pose proof (claim_held role now sent (services w) incumbent Hinc Hh) as Hcl.
  assert (Hrep : reported role now sent (services w) = incumbent)
    by (unfold reported; by rewrite Hcl).
  assert (Hwon : candidate_won incumbent sent = true) by (by apply candidate_won_spec).
  destruct (unique_service_run E role c w d ttl_v Hc Httl
              (reql_num_positive _ _ Hnum Hpos) Hup0 Hup1 (fun _ => Hup2))
    as (w' & -> & Ht & _).
  fold now sent in Ht |- *. simpl. rewrite Ht.
  assert (Hid : held !! "id" = Some (VStr role)).
  { unfold held. apply lookup_union_Some_l. rewrite lookup_delete_ne by done.
    apply stamped_id. }
  assert (Hel : elected role now sent (services w) = <[role := held]> (services w)).
  { unfold elected. rewrite Hrep, Hwon, Hcl. simpl.
    unfold update. rewrite Hinc. fold held. by rewrite (has_key_id _ _ Hid). }
  rewrite Hel.
  assert (Hlh : held !! "last_heartbeat" = Some (VTime now)).
  { unfold held. apply lookup_union_Some_l. rewrite lookup_delete_ne by done.
    apply stamped_last_heartbeat. }
  assert (Hfh : held !! "first_heartbeat" = incumbent !! "first_heartbeat").
  { unfold held. rewrite lookup_union_r; [done |]. apply lookup_delete_eq. }
  split; [| done].
  unfold read_outcome.
  rewrite (get_fresh_row role now _ held); [done | apply lookup_insert_eq |].
  rewrite (fresh_at_typed now held now ttl_v ttl); [| done | | done].
  - assert (H : now - ttl < now) by lra. apply Qltb_lt in H. by rewrite H.
  - unfold held. apply lookup_union_Some_l. rewrite lookup_delete_ne by done.
    unfold sent. by rewrite stamped_ttl.
Qed.

(** X8.  After a candidate has won a vacant role, [unique_service(role)]
    without a candidate, called less than [ttl] seconds (by the caller's
    clock) after the claim, returns the winner's row. *)
Theorem unique_service_winner_is_found (E : env) (role : string) (w : world)
    (c : loc) (d : dict) (ttl_v : value) (ttl : Q) :
  heap w !! c = Some d →
  d !! "ttl" = Some ttl_v →
  reql_num ttl_v = Some ttl →
  0 < ttl →
  let n := length (queries w) in
  unreachable E n = false →
  unreachable E (S n) = false →
  unreachable E (S (S n)) = false →
  unreachable E (S (S (S n))) = false →
  let now := utcnow E (clock_reads w) in
  let sent := stamped E role now d in
  vacant now role (services w) →
  utcnow E (S (clock_reads w)) - now < ttl →
  (unique_service E role None (unique_service E role (Some c) w).2).1
  = Return (Some sent).
Proof.
  intros Hc Httl Hnum Hpos n Hup0 Hup1 Hup2 Hup3 now sent Hvac Hsoon.
  destruct (unique_service_run E role c w d ttl_v Hc Httl
              (reql_num_positive _ _ Hnum Hpos) Hup0 Hup1 (fun _ => Hup2))
    as (w' & -> & Ht & Hclock & _ & Hq).
  fold now sent in Ht, Hq. simpl.
  destruct (elected_vacant E role now d (services w) Hvac) as [Hrep Hel].
  fold sent in Hrep, Hel. rewrite Hrep in Hq. rewrite Hel in Ht.
  rewrite unique_service_lookup, read_back_reachable.
  2:{ simpl. rewrite Hq, length_app.
      destruct (candidate_won sent sent); simpl.
      - by replace (length (queries w) + 3)%nat with (S (S (S n))) by (unfold n; lia).
      - by replace (length (queries w) + 2)%nat with (S (S n)) by (unfold n; lia). }
  simpl. rewrite Ht, Hclock. unfold read_outcome.
  rewrite (get_fresh_row role _ _ sent); [done | apply lookup_insert_eq |].
  rewrite (fresh_at_typed _ sent now ttl_v ttl);
    [| apply stamped_last_heartbeat | by unfold sent; rewrite stamped_ttl | done].
  assert (H : utcnow E (S (clock_reads w)) - ttl < now) by lra.
  apply Qltb_lt in H. by rewrite H.
Qed.

(** ** What unique_service leaves alone *)

Lemma claim_frame role now sent t k :
  k ≠ role → (claim role now sent t).1 !! k = t !! k.
Proof.
  intros Hne. unfold claim.
  destruct (claim_fn now sent (t !! role)) as [x| |]; simpl.
  - destruct (has_key role x); simpl.
    + by rewrite lookup_insert_ne.
    + by destruct (t !! role).
  - by destruct (t !! role).
  - by destruct (t !! role).
Qed.

Lemma update_frame key patch t k :
  k ≠ key → update key patch t !! k = t !! k.
Proof.
  intros Hne. unfold update. destruct (t !! key); [| done].
  destruct (has_key _ _); [| done]. by rewrite lookup_insert_ne.
Qed.

Lemma bind_inv {A B} (m : M A) (f : A → M B) w b w' :
  (m ≫= f) w = (Return b, w') →
  ∃ a w1, m w = (Return a, w1) ∧ f a w1 = (Return b, w').
Proof.
  unfold mbind, M_bind. destruct (m w) as [[a|e] w1]; [eauto | done].
Qed.

Lemma stamp_candidate_services E role c now w :
  services (stamp_candidate E role c now w).2 = services w ∧
  queries (stamp_candidate E role c now w).2 = queries w.
Proof.
  destruct (heap w !! c) as [d|] eqn:Hc.
  2:{ unfold stamp_candidate, setitem, deref, mbind, M_bind. by rewrite Hc. }
  destruct (d !! "ttl") as [ttl|] eqn:Httl.
  2:{ destruct (stamp_candidate_rejects E role c now w d Hc (or_introl Httl))
        as [msg ->]. done. }
  destruct (bad_ttl ttl) eqn:Hb.
  - apply bad_ttl_spec in Hb.
    destruct (stamp_candidate_rejects E role c now w d Hc
                (or_intror (ex_intro _ ttl (conj Httl Hb)))) as [msg ->]. done.
  - by rewrite (stamp_candidate_checked E role c now w d ttl Hc Httl Hb).
Qed.

(** The table and the heap object after [elect], whatever the outcome. *)
Lemma elect_services E role c now w k :
  k ≠ role → services (elect E role c now w).2 !! k = services w !! k.
Proof.
  intros Hne. unfold elect, mbind, M_bind, deref.
  destruct (heap w !! c) as [sent|] eqn:Hc; [| done].
  unfold run. destruct (unreachable E (length (queries w))); [done |].
  rewrite eval_claim. simpl.
  destruct ((claim role now sent (services w)).2) as [|ch cs]; simpl.
  { by apply claim_frame. }
  unfold when. destruct (candidate_won (new_val ch) sent); simpl.
  2:{ by apply claim_frame. }
  unfold delitem, mbind, M_bind, deref, store. simpl. rewrite Hc.
  destruct (sent !! "first_heartbeat"); simpl.
  2:{ by apply claim_frame. }
  rewrite list_lookup_insert_eq by (by eapply lookup_lt_Some). simpl.
  destruct (unreachable E _); simpl.
  - by apply claim_frame.
  - rewrite update_frame by done. by apply claim_frame.
Qed.

Lemma read_back_services E role now w :
  services (read_back E role now w).2 = services w.
Proof. by destruct (read_back_trace E role now w) as [o ->]. Qed.

(** X9.  [unique_service] never changes a row stored under another key than
    the role, whatever its arguments and whatever the outcome. *)
Theorem unique_service_touches_only_its_role (E : env) (role : string)
    (candidate : option loc) (w : world) (k : string) :
  k ≠ role →
  services (unique_service E role candidate w).2 !! k = services w !! k.
Proof.
  intros Hne. unfold unique_service.
  rewrite (bind_return _ _ _ _ _ (read_clock_ok E w)).
  set (now := utcnow E (clock_reads w)).
  destruct candidate as [c|].
  2:{ unfold mbind at 1, M_bind at 1. simpl. by rewrite read_back_services. }
  unfold mbind at 1, M_bind at 1. unfold mbind at 1, M_bind at 1.
  pose proof (stamp_candidate_services E role c now (tick w)) as [Hs _].
  destruct (stamp_candidate E role c now (tick w)) as [[[]|e] w1] eqn:Hst;
    simpl in Hs; simpl; [| by rewrite Hs].
  pose proof (elect_services E role c now w1 k Hne) as He.
  destruct (elect E role c now w1) as [[[]|e] w2]; simpl in He; simpl.
  - by rewrite read_back_services, He, Hs.
  - by rewrite He, Hs.
Qed.

Lemma read_back_some E role now w row w' :
  read_back E role now w = (Return (Some row), w') →
  services w' !! role = Some row ∧ fresh_at now row = Val true.
Proof.
  rewrite read_back_unfold. cbv zeta.
  destruct (unreachable E _); [done |].
  unfold get_fresh, get_all_pk.
  destruct (services w !! role) as [r|] eqn:Hr; simpl.
  2:{ by intros [=]. }
  destruct (fresh_at now r) as [[]| |] eqn:Hf; simpl; try done.
  intros [= <- <-]. done.
Qed.

(** X10.  A row [unique_service] returns is the row stored under the role
    when the call ends, and it passes the liveness test
    [last_heartbeat > now - ttl] at the call's [now]. *)
Theorem unique_service_returns_fresh_row (E : env) (role : string)
    (candidate : option loc) (w w' : world) (row : dict) :
  unique_service E role candidate w = (Return (Some row), w') →
  services w' !! role = Some row ∧
  fresh_at (utcnow E (clock_reads w)) row = Val true.
Proof.
  unfold unique_service. intros Hrun.
  apply bind_inv in Hrun as (now & w1 & Hclock & Hrun).
  rewrite read_clock_ok in Hclock. injection Hclock as <- <-.
  apply bind_inv in Hrun as ([] & w2 & _ & Hrun).
  by apply read_back_some in Hrun.
Qed.

(** ** Rejections and failures *)

(** X11.  [candidate['id'] = role] runs before the check of 'ttl': a call
    that rejects its candidate (no 'ttl', or one the check refuses) has
    read the clock and has already set 'id' in the caller's dict (and
    changed nothing else in it). *)
Theorem unique_service_sets_id_before_validating (E : env) (role : string)
    (w : world) (c : loc) (d : dict) :
  heap w !! c = Some d →
  (d !! "ttl" = None ∨ ∃ ttl, d !! "ttl" = Some ttl ∧ refused_ttl ttl) →
  let r := unique_service E role (Some c) w in
  (∃ msg, r.1 = Raise (PyException msg)) ∧
  heap r.2 = <[c := <["id" := VStr role]> d]> (heap w) ∧
  clock_reads r.2 = S (clock_reads w).
Proof.
  intros Hc Hbad r. subst r.
  destruct (unique_service_rejects E role c w d Hc Hbad) as [msg ->].
  split; [by exists msg | done].
Qed.

(** X25.  A NaN 'ttl' passes the check of line 229 as well: the call raises
    no validation exception, the caller's dict is stamped and the
    conditional replace is sent with it. *)
Theorem unique_service_passes_nan_ttl (E : env) (role : string) (w : world)
    (c : loc) (d : dict) :
  heap w !! c = Some d →
  d !! "ttl" = Some VNaN →
  let now := utcnow E (clock_reads w) in
  let sent := stamped E role now d in
  let r := unique_service E role (Some c) w in
  (∀ msg, r.1 ≠ Raise (PyException msg)) ∧
  sent !! "ttl" = Some VNaN ∧
  ∃ later, queries r.2 = (queries w ++ QClaim role now sent :: later)%list.
Proof.
  intros Hc Httl now sent r. subst r.
  rewrite (unique_service_checked _ _ _ _ _ VNaN Hc Httl eq_refl). fold now sent.
  set (w1 := put c sent (tick w)).
  assert (Hw1 : heap w1 !! c = Some sent).
  { apply heap_put. simpl. by eapply lookup_lt_Some. }
  unfold mbind, M_bind.
  rewrite (elect_unfold E role c now w1 sent _ Hw1 (stamped_id _ _ _ _)
             (stamped_first_heartbeat _ _ _ _)).
  cbv zeta.
  assert (Hread : ∀ w0, (∀ msg, (read_back E role now w0).1 ≠ Raise (PyException msg)) ∧
                        queries (read_back E role now w0).2
                        = (queries w0 ++ [QGetFresh role now])%list).
  { intros w0. rewrite read_back_unfold. cbv zeta.
    destruct (unreachable E (length (queries w0))); [done |].
    by destruct (get_fresh role now (services w0)). }
  split; [| split; [by unfold sent; rewrite stamped_ttl |]].
  - intros msg.
    repeat match goal with
    | |- context [if ?b then _ else _] => destruct b
    end; simpl; try done; apply Hread.
  - repeat match goal with
    | |- context [if ?b then _ else _] => destruct b
    end; simpl.
    + by exists [].
    + exists [QUpdate role (delete "first_heartbeat" sent)]. by rewrite <- app_assoc.
    + rewrite (proj2 (Hread _)). simpl.
      exists [QUpdate role (delete "first_heartbeat" sent); QGetFresh role now].
      by rewrite <- !app_assoc.
    + rewrite (proj2 (Hread _)). simpl.
      exists [QGetFresh role now]. by rewrite <- !app_assoc.
Qed.

Lemma unique_service_passes_nan_ttl_witness :
  let w := world_of [nan_candidate] ∅ in
  let sent := stamped sample_env "leader" 1000 nan_candidate in
  let r := unique_service sample_env "leader" (Some 0%nat) w in
  (∀ msg, r.1 ≠ Raise (PyException msg)) ∧
  sent !! "ttl" = Some VNaN ∧
  ∃ later, queries r.2 = QClaim "leader" 1000 sent :: later.
Proof.
  intros w sent r.
  apply (unique_service_passes_nan_ttl sample_env "leader" w 0%nat nan_candidate).
  - reflexivity.
  - reflexivity.
Defined.

(** X12.  When the database cannot be reached, [unique_service] raises the
    driver's error, with or without a candidate; with an accepted candidate
    the table is untouched but the caller's dict has been stamped. *)
Theorem unique_service_propagates_storage_failure (E : env) (role : string)
    (w : world) (c : loc) (d : dict) (ttl : value) :
  heap w !! c = Some d →
  d !! "ttl" = Some ttl →
  positive_number ttl →
  unreachable E (length (queries w)) = true →
  let sent := stamped E role (utcnow E (clock_reads w)) d in
  let r := unique_service E role (Some c) w in
  r.1 = Raise ReqlDriverError ∧
  services r.2 = services w ∧
  heap r.2 = <[c := sent]> (heap w) ∧
  (unique_service E role None w).1 = Raise ReqlDriverError.
Proof.
  intros Hc Httl Hpos Hdown sent r. subst r.
  rewrite (unique_service_accepts _ _ _ _ _ _ Hc Httl Hpos). fold sent.
  set (now := utcnow E (clock_reads w)).
  set (w1 := put c sent (tick w)).
  assert (Hw1 : heap w1 !! c = Some sent).
  { apply heap_put. simpl. by eapply lookup_lt_Some. }
  unfold mbind, M_bind.
  rewrite (elect_unfold E role c now w1 sent _ Hw1 (stamped_id _ _ _ _)
             (stamped_first_heartbeat _ _ _ _)).
  cbv zeta. simpl queries. rewrite Hdown. simpl.
  repeat split; try done.
  rewrite unique_service_lookup, read_back_unfold. cbv zeta. simpl queries.
  by rewrite Hdown.
Qed.

(** X13.  [healthy_service] catches only the non-existence error of [[0]]:
    when the database cannot be reached it raises instead of returning
    [None]. *)
Theorem healthy_service_propagates_storage_failure (E : env) (role : string) (w : world) :
  unreachable E (length (queries w)) = true →
  let r := healthy_service E role w in
  r.1 = Raise ReqlDriverError ∧ services r.2 = services w.
Proof.
  intros Hdown r. subst r.
  unfold healthy_service, try_except.
  erewrite bind_raise by (by apply run_unreachable). done.
Qed.

(** ** Purging with any multiplier *)

(** [purge_stale_services(m)] for a numeric [m]. *)
Lemma purgeable_numeric now m_v m row lh ttl :
  reql_num m_v = Some m →
  last_heartbeat_of row = Some lh →
  ttl_of row = Some ttl →
  purgeable now m_v row = Val (Qltb (ttl * m) (now - lh)).
Proof.
  intros Hm. unfold last_heartbeat_of, ttl_of, purgeable, reql_field.
  destruct (row !! "last_heartbeat") as [[]|]; try done. intros [= ->].
  destruct (row !! "ttl") as [v|]; [| done]. simpl. intros Hnum.
  unfold reql_mul. rewrite Hnum, Hm. simpl. done.
Qed.

(** X14.  [purge_stale_services(m)] for a number [m]: a row is deleted when
    [now - last_heartbeat > m * ttl] and kept as it is otherwise. *)
Theorem purge_with_multiplier (E : env) (w : world) (m_v : value) (m : Q) :
  reql_num m_v = Some m →
  unreachable E (length (queries w)) = false →
  let now := r_now E (length (queries w)) in
  (∀ k row, services w !! k = Some row → purgeable now m_v row ≠ LogicError) →
  let r := purge_stale_services E (Some m_v) w in
  ∀ k row lh ttl,
    services w !! k = Some row →
    last_heartbeat_of row = Some lh →
    ttl_of row = Some ttl →
    (m * ttl < now - lh → services r.2 !! k = None) ∧
    (now - lh <= m * ttl → services r.2 !! k = Some row).
Proof.
  intros Hm Hup now Hok r. subst r.
  destruct (purge_lookup now m_v (services w) Hok) as (t' & n & Hp & Hlk).
  rewrite (purge_stale_services_services E (Some m_v) w t' n Hup Hp).
  intros k row lh ttl Hk Hlh Httl. rewrite Hlk, Hk.
  unfold selects. rewrite (purgeable_numeric _ _ _ _ _ _ Hm Hlh Httl). split.
  - intros Hlt. assert (H : ttl * m < now - lh) by lra.
    apply Qltb_lt in H. by rewrite H.
  - intros Hle. assert (H : now - lh <= ttl * m) by lra.
    apply Qltb_ge in H. by rewrite H.
Qed.

(** X15.  With a multiplier of at least 1 (the default is 2)
    [purge_stale_services] never deletes a healthy record. *)
Theorem purge_spares_healthy_records (E : env) (w : world)
    (ttls_until_deletion : option value) (m : Q) (k : string) (row : dict) (lh ttl : Q) :
  reql_num (default (VInt 2) ttls_until_deletion) = Some m →
  1 <= m →
  unreachable E (length (queries w)) = false →
  let now := r_now E (length (queries w)) in
  (∀ k row, services w !! k = Some row →
            purgeable now (default (VInt 2) ttls_until_deletion) row ≠ LogicError) →
  services w !! k = Some row →
  last_heartbeat_of row = Some lh →
  ttl_of row = Some ttl →
  0 <= ttl →
  now - lh < ttl →
  services (purge_stale_services E ttls_until_deletion w).2 !! k = Some row.
Proof.
  intros Hnum Hge Hup now Hok Hk Hlh Httl Hpos Hh.
  destruct (purge_lookup now _ (services w) Hok) as (t' & n & Hp & Hlk).
  rewrite (purge_stale_services_services E ttls_until_deletion w t' n Hup Hp).
  rewrite Hlk, Hk. unfold selects.
  rewrite (purgeable_numeric _ _ _ _ _ _ Hnum Hlh Httl).
  assert (H : now - lh <= ttl * m) by nra.
  apply Qltb_ge in H. by rewrite H.
Qed.

(** ** Unregistering *)

(** X16.  [unregister(id)], when the database answers, returns normally and
    leaves the table without a row for [id]; other rows and the dicts are
    untouched.  It logs its warning exactly when there was no such row. *)
Theorem unregister_deletes_or_warns (E : env) (id : string) (s : registry) :
  unreachable E (round_trips s) = false →
  let r := unregister E id s in
  r.1 = Return () ∧
  services (core r.2) = delete id (services (core s)) ∧
  heap (core r.2) = heap (core s) ∧
  warnings r.2 =
    (if bool_decide (is_Some (services (core s) !! id)) then warnings s
     else warnings s ++ [deletion_warning id])%list.
Proof.
  intros Hup r. subst r. unfold unregister, delete_row. rewrite Hup.
  destruct (services (core s) !! id) as [row|] eqn:Hrow.
  - rewrite bool_decide_false by (intros H; by apply H).
    rewrite bool_decide_true by eauto. done.
  - rewrite bool_decide_true by done.
    rewrite bool_decide_false by (by intros [? ?]).
    simpl. by rewrite delete_id.
Qed.

(** X17.  Unregistering the same id twice: the second call returns as well,
    leaves the table as the first left it, and logs the warning. *)
Theorem unregister_twice (E : env) (id : string) (s : registry) :
  unreachable E (round_trips s) = false →
  unreachable E (S (round_trips s)) = false →
  let r1 := unregister E id s in
  let r2 := unregister E id r1.2 in
  r2.1 = Return () ∧
  services (core r2.2) = services (core r1.2) ∧
  warnings r2.2 = (warnings r1.2 ++ [deletion_warning id])%list.
Proof.
  intros Hup1 Hup2 r1 r2.
  assert (Hr1 : services (core r1.2) !! id = None ∧ round_trips r1.2 = S (round_trips s)).
  { subst r1. unfold unregister, delete_row. rewrite Hup1.
    destruct (services (core s) !! id) as [row|] eqn:Hrow.
    - rewrite bool_decide_false by (intros H; by apply H). simpl.
      split; [apply lookup_delete_eq |].
      unfold round_trips. simpl. rewrite length_app. simpl. lia.
    - rewrite bool_decide_true by done. simpl. split; [done |].
      unfold round_trips. simpl. rewrite length_app. simpl. lia. }
  destruct Hr1 as [Hgone Htrips].
  subst r2. unfold unregister at 1 2 3, delete_row. rewrite Htrips, Hup2, Hgone.
  by rewrite bool_decide_true by done.
Qed.

(** X18.  A first [heartbeat] under a new id followed by [unregister] of
    that id gives back the table as it was, without a warning. *)
Theorem unregister_undoes_first_heartbeat (E : env) (w : world) (l : loc) (d : dict)
    (k : string) :
  heap w !! l = Some d →
  valid_status d →
  d !! "id" = Some (VStr k) →
  services w !! k = None →
  unreachable E (length (queries w)) = false →
  unreachable E (S (length (queries w))) = false →
  let r := unregister E k (Registry (heartbeat E l w).2 [] []) in
  r.1 = Return () ∧
  services (core r.2) = services w ∧
  warnings r.2 = [].
Proof.
  intros Hl Hv Hid Hnew Hup1 Hup2 r. subst r.
  rewrite (heartbeat_reachable _ _ _ _ Hl (valid_checked _ Hv) Hup1). cbv zeta.
  rewrite (insert_replace_keyed _ _ _ _ k);
    [| by rewrite heartbeat_doc, normalized_id | by intros old; rewrite Hnew].
  cbn [snd fst new_val].
  unfold unregister, delete_row, round_trips. simpl.
  rewrite length_app. simpl.
  replace (length (queries w) + 1 + 0)%nat with (S (length (queries w))) by lia.
  rewrite Hup2, lookup_insert_eq.
  rewrite bool_decide_false by (intros H; by apply H). simpl.
  by rewrite delete_insert_id.
Qed.

(** ** The list of healthy services *)

Lemma load_le_total a b : load_le a b ∨ load_le b a.
Proof.
  unfold load_le. destruct (load_lt b a) eqn:H; [| by left].
  right. by apply load_lt_asym.
Qed.

Lemma load_le_trans a b c : load_le a b → load_le b c → load_le a c.
Proof. unfold load_le. intros Hab Hbc. by eapply load_lt_negtrans. Qed.

Lemma insert_by_load_sorted row l :
  Sorted load_le l → Sorted load_le (insert_by_load row l).
Proof.
  induction 1 as [|r l Hs IH Hhd]; simpl.
  - repeat constructor.
  - destruct (load_lt r row) eqn:Hlt.
    + constructor; [done |].
      destruct l as [|r' l']; simpl in *.
      * constructor. unfold load_le. by apply load_lt_asym.
      * destruct (load_lt r' row).
        -- constructor. by inversion Hhd.
        -- constructor. unfold load_le. by apply load_lt_asym.
    + constructor; [by constructor |]. by constructor.
Qed.

Lemma order_by_load_sorted l : Sorted load_le (order_by_load l).
Proof.
  induction l as [|row l IH]; simpl; [constructor |].
  by apply insert_by_load_sorted.
Qed.

Lemma elem_of_scan (t : table) (row : dict) :
  row ∈ (map_to_list t).*2 ↔ ∃ k, t !! k = Some row.
Proof.
  rewrite list_elem_of_fmap. split.
  - intros ([k r] & -> & Hin). apply elem_of_map_to_list in Hin. eauto.
  - intros [k Hk]. exists (k, row). split; [done |]. by apply elem_of_map_to_list.
Qed.

(** X19.  [healthy_services(role)], when the database answers: the result
    holds exactly the healthy records of the role (of every role when [role]
    is [None] or the empty string), in ascending order of 'load'; nothing is
    written. *)
Theorem healthy_services_lists_healthy_by_load (E : env) (role : option string)
    (s : registry) :
  unreachable E (round_trips s) = false →
  let now := r_now E (round_trips s) in
  let t := services (core s) in
  (∀ row, looked_at role t row → down now row ∨ healthy now row) →
  let r := healthy_services E role s in
  ∃ rows, r.1 = Return rows ∧
          (∀ row, row ∈ rows ↔ looked_at role t row ∧ healthy now row) ∧
          Sorted load_le rows ∧
          core r.2 = core s.
Proof.
  intros Hup now t Htyped r. subst r. unfold healthy_services. rewrite Hup.
  fold now t. unfold healthy_list.
  set (base := match given_role role with
               | Some r => get_all_role r t
               | None => (map_to_list t).*2
               end).
  assert (Hbase : ∀ row, row ∈ base ↔ looked_at role t row).
  { intros row. unfold base, looked_at. destruct (given_role role) as [r|].
    - rewrite elem_of_get_all_role. done.
    - rewrite elem_of_scan.
      split; [intros [k Hk]; by exists k | intros (k & Hk & _); by exists k]. }
  rewrite reql_filter_Val.
  2:{ apply Forall_forall. intros row Hin. apply typed_no_error, Htyped.
      by apply Hbase. }
  simpl. eexists. split; [reflexivity |].
  split; [| split; [apply order_by_load_sorted | done]].
  intros row. rewrite elem_of_order_by_load, list_elem_of_In, filter_In,
    <- list_elem_of_In, Hbase.
  split.
  - intros [Hl Hsel]. split; [done |].
    destruct (Htyped _ Hl) as [Hd|]; [| done].
    by rewrite (down_selects _ _ Hd) in Hsel.
  - intros [Hl Hh]. split; [done | by apply healthy_selects].
Qed.

(** X20.  On the same table and at the same server time,
    [healthy_service(role)] returns the first element of
    [healthy_services(role)], and [None] when that list is empty. *)
Theorem healthy_service_is_first_of_healthy_services (E : env) (role : string)
    (w : world) :
  role ≠ "" →
  unreachable E (length (queries w)) = false →
  (∀ row, record_of_role (services w) role row →
          down (r_now E (length (queries w))) row ∨
          healthy (r_now E (length (queries w))) row) →
  ∃ rows, (healthy_services E (Some role) (Registry w [] [])).1 = Return rows ∧
          (healthy_service E role w).1 = Return (head rows).
Proof.
  intros Hrole Hup Htyped.
  assert (Hgiven : given_role (Some role) = Some role).
  { simpl. by apply String.eqb_neq in Hrole as ->. }
  unfold healthy_services, round_trips. simpl core. simpl further_queries.
  simpl length. rewrite Nat.add_0_r, Hup, Hgiven.
  rewrite (healthy_service_unfold _ _ _ Hup).
  unfold healthy_list. rewrite (healthy_first_typed _ _ _ Htyped).
  rewrite reql_filter_Val.
  2:{ apply Forall_forall. intros row Hin. apply typed_no_error, Htyped.
      by apply elem_of_get_all_role. }
  simpl. eexists. split; [reflexivity |].
  by destruct (order_by_load _).
Qed.

(** ** Creating the table *)

Lemma elem_of_names {A} (m : gmap string A) (k : string) :
  k ∈ (map_to_list m).*1 ↔ is_Some (m !! k).
Proof.
  rewrite list_elem_of_fmap. split.
  - intros ([k' x] & -> & Hin). apply elem_of_map_to_list in Hin. eauto.
  - intros [x Hx]. exists (k, x). split; [done |]. by apply elem_of_map_to_list.
Qed.

Lemma send_ok E q c cat r :
  unreachable E (length (admin_queries c)) = false →
  eval_admin q (catalog_of c) = Some (cat, r) →
  send E q c = (inr r, Cluster cat (admin_queries c ++ [q]) (infos c)).
Proof. intros Hup Hev. unfold send. by rewrite Hup, Hev. Qed.

Lemma setup_bind_ok {A B} (m : Setup A) (f : A → Setup B) c a c' :
  m c = (inr a, c') → (m ≫= f) c = f a c'.
Proof. intros H. unfold mbind, Setup_bind. by rewrite H. Qed.

Lemma setup_bind_error {A B} (m : Setup A) (f : A → Setup B) c e c' :
  m c = (inl e, c') → (m ≫= f) c = (inl e, c').
Proof. intros H. unfold mbind, Setup_bind. by rewrite H. Qed.

Lemma assert_dbname_ok rr db c : named rr db → assert_dbname rr c = (inr db, c).
Proof.
  intros [Hdb Hne]. unfold assert_dbname. rewrite Hdb.
  by apply String.eqb_neq in Hne as ->.
Qed.

Lemma create_database_ok E db cat qs logs :
  cat !! db = None →
  unreachable E (length qs) = false →
  create_database E db (Cluster cat qs logs)
  = (inr (), Cluster (<[db := ∅]> cat) (qs ++ [QDbCreate db])
               (logs ++ ["creating rethinkdb database"])).
Proof.
  intros Hnew Hup. unfold create_database, info, send, mbind, Setup_bind.
  cbn [admin_queries catalog_of infos]. rewrite Hup. cbn [eval_admin].
  by rewrite Hnew.
Qed.

Lemma create_services_table_ok E rr db cat tables qs logs :
  cat !! db = Some tables →
  tables !! "services" = None →
  unreachable E (length qs) = false →
  unreachable E (S (length qs)) = false →
  create_services_table E rr db (Cluster cat qs logs)
  = (inr (),
     Cluster (<[db := <["services" := {[ "role" ]}]> tables]> cat)
       (qs ++ [QTableCreate db "services" 1 (Nat.min 3 (length (servers rr)));
               QIndexCreate db "services" "role"])
       (logs ++ ["creating rethinkdb table 'services' in database"])).
Proof.
  intros Hdb Hnew Hup1 Hup2.
  unfold create_services_table, info, send, mbind, Setup_bind.
  cbn [admin_queries catalog_of infos]. rewrite Hup1. cbn [eval_admin].
  rewrite Hdb. cbn [mbind option_bind]. rewrite Hnew.
  cbn [admin_queries catalog_of infos].
  rewrite length_app. cbn [length]. rewrite Nat.add_1_r, Hup2.
  cbn [eval_admin]. rewrite lookup_insert_eq. cbn [mbind option_bind].
  rewrite lookup_insert_eq. cbn [mbind option_bind].
  rewrite bool_decide_false by set_solver.
  rewrite !insert_insert_eq, <- app_assoc.
  by rewrite (right_id_L ∅ (∪)).
Qed.

Lemma send_db_list E cat qs logs :
  unreachable E (length qs) = false →
  send E QDbList (Cluster cat qs logs)
  = (inr (Names (map_to_list cat).*1), Cluster cat (qs ++ [QDbList]) logs).
Proof. intros Hup. unfold send. cbn [admin_queries]. by rewrite Hup. Qed.

Lemma send_table_list E db cat tables qs logs :
  cat !! db = Some tables →
  unreachable E (length qs) = false →
  send E (QTableList db) (Cluster cat qs logs)
  = (inr (Names (map_to_list tables).*1), Cluster cat (qs ++ [QTableList db]) logs).
Proof.
  intros Hdb Hup. unfold send. cbn [admin_queries catalog_of]. rewrite Hup.
  cbn [eval_admin]. by rewrite Hdb.
Qed.

(** X21.  On a cluster without the database, [_ensure_table] sends five
    queries: it lists the databases, creates the database, lists its tables,
    creates 'services' with one shard and [min(3, len(servers))] replicas,
    and creates the index 'role'. *)
Theorem ensure_table_creates_database_table_and_index (E : env) (rr : rethinker)
    (db : string) (c : cluster) :
  named rr db →
  servers rr ≠ [] →
  catalog_of c !! db = None →
  (∀ i, (i < 5)%nat → unreachable E (length (admin_queries c) + i) = false) →
  let r := ensure_table E rr c in
  r.1 = inr () ∧
  catalog_of r.2 = <[db := {[ "services" := {[ "role" ]} ]}]> (catalog_of c) ∧
  admin_queries r.2 =
    (admin_queries c ++
       [QDbList; QDbCreate db; QTableList db;
        QTableCreate db "services" 1 (Nat.min 3 (length (servers rr)));
        QIndexCreate db "services" "role"])%list.
Proof.
  intros Hnamed _ Hnew Hup r. subst r.
  destruct c as [cat qs logs]. cbn [admin_queries catalog_of] in *.
  assert (Hup0 : unreachable E (length qs) = false)
    by (rewrite <- (Nat.add_0_r (length qs)); apply Hup; lia).
  assert (Hat : ∀ (more : list admin_query) i,
             length more = i → (i < 5)%nat →
             unreachable E (length (qs ++ more)) = false).
  { intros more i <- Hi. rewrite length_app. by apply Hup. }
  unfold ensure_table.
  rewrite (setup_bind_ok _ _ _ _ _ (send_db_list E cat qs logs Hup0)).
  rewrite (setup_bind_ok _ _ _ _ _ (assert_dbname_ok rr db _ Hnamed)).
  cbn [names_of].
  rewrite bool_decide_false by (rewrite elem_of_names, Hnew; by intros [? ?]).
  cbn [unless].
  rewrite (setup_bind_ok _ _ _ _ _ (create_database_ok E db cat _ logs Hnew
             (Hat [QDbList] 1%nat eq_refl ltac:(lia)))).
  rewrite <- !app_assoc. cbn [app].
  rewrite (setup_bind_ok _ _ _ _ _ (send_table_list E db _ ∅ _ _
             (lookup_insert_eq _ _ _)
             (Hat [QDbList; QDbCreate db] 2%nat eq_refl ltac:(lia)))).
  cbn [names_of]. rewrite map_to_list_empty.
  rewrite bool_decide_false by (by intros ?%elem_of_nil).
  cbn [unless]. rewrite <- !app_assoc. cbn [app].
  rewrite (create_services_table_ok E rr db _ ∅ _ _ (lookup_insert_eq _ _ _)
             (lookup_empty _)
             (Hat [QDbList; QDbCreate db; QTableList db] 3%nat eq_refl ltac:(lia))).
  - cbn [fst snd catalog_of admin_queries].
    split; [done |]. split.
    + rewrite insert_insert_eq. by rewrite insert_empty.
    + by rewrite <- !app_assoc.
  - rewrite length_app. cbn [length].
    replace (S (length qs + 3))%nat with (length qs + 4)%nat by lia.
    apply (Hup 4%nat); lia.
Qed.

(** X22.  When the database and its table 'services' exist, [_ensure_table]
    only lists databases and tables: it creates nothing and logs nothing.
    In particular it does not create the index 'role' when the table lacks
    it. *)
Theorem ensure_table_leaves_existing_table_alone (E : env) (rr : rethinker)
    (db : string) (c : cluster) (tables : gmap string (gset string))
    (indexes : gset string) :
  named rr db →
  catalog_of c !! db = Some tables →
  tables !! "services" = Some indexes →
  unreachable E (length (admin_queries c)) = false →
  unreachable E (S (length (admin_queries c))) = false →
  ensure_table E rr c
  = (inr (), Cluster (catalog_of c) (admin_queries c ++ [QDbList; QTableList db])
               (infos c)).
Proof.
  intros Hnamed Hdb Htable Hup0 Hup1.
  destruct c as [cat qs logs]. cbn [admin_queries catalog_of infos] in *.
  unfold ensure_table.
  rewrite (setup_bind_ok _ _ _ _ _ (send_db_list E cat qs logs Hup0)).
  rewrite (setup_bind_ok _ _ _ _ _ (assert_dbname_ok rr db _ Hnamed)).
  cbn [names_of].
  rewrite bool_decide_true by (rewrite elem_of_names, Hdb; eauto).
  cbn [unless].
  rewrite (setup_bind_ok _ _ (Cluster cat (qs ++ [QDbList]) logs) ()
             (Cluster cat (qs ++ [QDbList]) logs)) by done.
  assert (Hup1' : unreachable E (length (qs ++ [QDbList])) = false)
    by (by rewrite length_app, Nat.add_1_r).
  rewrite (setup_bind_ok _ _ _ _ _ (send_table_list E db _ tables _ _ Hdb Hup1')).
  cbn [names_of].
  rewrite bool_decide_true by (rewrite elem_of_names, Htable; eauto).
  cbn [unless]. by rewrite <- app_assoc.
Qed.

(** X23.  With a Rethinker whose [dbname] is [None] or empty,
    [_ensure_table] fails its assertion, after it has already sent the
    listing of the databases; nothing is created. *)
Theorem ensure_table_asserts_dbname_after_listing (E : env) (rr : rethinker)
    (c : cluster) :
  dbname rr = None ∨ dbname rr = Some "" →
  unreachable E (length (admin_queries c)) = false →
  ensure_table E rr c
  = (inl AssertionError,
     Cluster (catalog_of c) (admin_queries c ++ [QDbList]) (infos c)).
Proof.
  intros Hfalsy Hup. destruct c as [cat qs logs].
  cbn [admin_queries catalog_of infos] in *. unfold ensure_table.
  rewrite (setup_bind_ok _ _ _ _ _ (send_db_list E cat qs logs Hup)).
  apply setup_bind_error. unfold assert_dbname.
  by destruct Hfalsy as [-> | ->].
Qed.

(** ** Instances of the further properties *)

Lemma valid_status_w1 : valid_status status_w1.
Proof.
  repeat split; [by eexists | by eexists |].
  exists (VInt 60). split; [reflexivity | simpl; lia].
Defined.

Lemma valid_status_anonymous : valid_status status_anonymous.
Proof.
  repeat split; [by eexists | by eexists |].
  exists (VInt 60). split; [reflexivity | simpl; lia].
Defined.

Lemma heartbeat_stores_record_witness :
  let w := world_of [status_w1] ∅ in
  let row := normalized sample_env (r_now sample_env 0) status_w1 in
  let r := heartbeat sample_env 0%nat w in
  r.1 = Return 1%nat ∧
  heap r.2 = [status_w1; row] ∧
  services r.2 = <["w1" := row]> ∅ ∧
  logged r.2 = [].
Proof.
  intros w row r.
  apply (heartbeat_stores_record sample_env w 0%nat status_w1 "w1").
  - reflexivity.
  - exact valid_status_w1.
  - reflexivity.
  - reflexivity.
  - intros old Hold. discriminate Hold.
Defined.

Lemma heartbeat_generates_id_witness :
  let w := world_of [status_anonymous] ∅ in
  let row := <["id" := VStr "generated-key"]>
               (normalized sample_env (r_now sample_env 0) status_anonymous) in
  let r := heartbeat sample_env 0%nat w in
  r.1 = Return 1%nat ∧
  heap r.2 = [status_anonymous; row] ∧
  services r.2 = <["generated-key" := row]> ∅.
Proof.
  intros w row r.
  apply (heartbeat_generates_id sample_env w 0%nat status_anonymous).
  - reflexivity.
  - exact valid_status_anonymous.
  - reflexivity.
  - reflexivity.
Defined.

Lemma heartbeat_returns_stored_record_witness :
  let w := world_of [status_w1] ∅ in
  let w' := (heartbeat sample_env 0%nat w).2 in
  let now := r_now sample_env 0 in
  ∃ row key,
    heap w' !! 1%nat = Some row ∧
    row !! "id" = Some (VStr key) ∧
    services w' !! key = Some row ∧
    row !! "last_heartbeat" = Some (VTime now) ∧
    row !! "first_heartbeat" = Some (VTime now) ∧
    row !! "host" = Some (VStr "svc01") ∧
    row !! "pid" = Some (VInt 4242) ∧
    ∀ k, k ∉ ["id"; "last_heartbeat"; "first_heartbeat"; "host"; "pid"] →
         row !! k = status_w1 !! k.
Proof.
  intros w w' now.
  apply (heartbeat_returns_stored_record sample_env w 0%nat status_w1 1%nat w').
  - reflexivity.
  - vm_compute. reflexivity.
  - discriminate.
Defined.

Lemma heartbeat_then_healthy_service_witness :
  let w := world_of [status_w1] ∅ in
  let row := normalized sample_env (r_now sample_env 0) status_w1 in
  ∃ best, (healthy_service sample_env "worker" (heartbeat sample_env 0%nat w).2).1
          = Return (Some best) ∧
          healthy (r_now sample_env 1) best ∧
          load_lt row best = false.
Proof.
  intros w row.
  apply (heartbeat_then_healthy_service sample_env w 0%nat status_w1 "w1" "worker" 60).
  - reflexivity.
  - exact valid_status_w1.
  - reflexivity.
  - reflexivity.
  - reflexivity.
  - intros old Hold. discriminate Hold.
  - reflexivity.
  - reflexivity.
  - vm_compute. reflexivity.
  - intros x (k & Hk & _). simpl in Hk. rewrite lookup_empty in Hk. discriminate Hk.
Defined.

Lemma incumbent_healthy : healthy (utcnow sample_env 0) incumbent.
Proof. exists 990, (inject_Z 60). repeat split; vm_compute; reflexivity. Defined.

Lemma unique_service_claims_vacant_role_witness :
  let w := world_of [bare_candidate] ∅ in
  let sent := stamped sample_env "leader" (utcnow sample_env 0) bare_candidate in
  let r := unique_service sample_env "leader" (Some 0%nat) w in
  r.1 = Return (Some sent) ∧
  services r.2 = <["leader" := sent]> ∅ ∧
  heap r.2 = [delete "first_heartbeat" sent].
Proof.
  intros w sent r.
  destruct (unique_service_claims_vacant_role sample_env "leader" w 0%nat
              bare_candidate (VInt 60) 60) as (Hret & Htable & Hheap).
  - reflexivity.
  - reflexivity.
  - reflexivity.
  - vm_compute. reflexivity.
  - reflexivity.
  - reflexivity.
  - reflexivity.
  - left. reflexivity.
  - split; [exact Hret |]. split; [exact Htable |].
    apply Hheap, nan_free_forallb. vm_compute. reflexivity.
Defined.

Lemma unique_service_loses_to_healthy_incumbent_witness :
  let w := world_of [rival] {[ "leader" := incumbent ]} in
  let now := utcnow sample_env 0 in
  let sent := stamped sample_env "leader" now rival in
  let r := unique_service sample_env "leader" (Some 0%nat) w in
  r.1 = Return (Some incumbent) ∧
  services r.2 = {[ "leader" := incumbent ]} ∧
  heap r.2 = [sent] ∧
  queries r.2 = [QClaim "leader" now sent; QGetFresh "leader" now].
Proof.
  intros w now sent r.
  apply (unique_service_loses_to_healthy_incumbent sample_env "leader" w 0%nat
           rival (VInt 60) incumbent).
  - reflexivity.
  - reflexivity.
  - simpl. lia.
  - reflexivity.
  - reflexivity.
  - reflexivity.
  - exact incumbent_healthy.
  - intros H. specialize (H "node" (VStr "b") eq_refl ltac:(discriminate) ltac:(discriminate)).
    vm_compute in H. discriminate H.
Defined.

Lemma unique_service_renewal_keeps_first_heartbeat_witness :
  let w := world_of [bare_candidate] {[ "leader" := incumbent ]} in
  let now := utcnow sample_env 0 in
  let sent := stamped sample_env "leader" now bare_candidate in
  let held := delete "first_heartbeat" sent ∪ incumbent in
  let r := unique_service sample_env "leader" (Some 0%nat) w in
  r.1 = Return (Some held) ∧
  services r.2 = <["leader" := held]> {[ "leader" := incumbent ]} ∧
  held !! "first_heartbeat" = incumbent !! "first_heartbeat" ∧
  held !! "last_heartbeat" = Some (VTime now).
Proof.
  intros w now sent held r.
  apply (unique_service_renewal_keeps_first_heartbeat sample_env "leader" w 0%nat
           bare_candidate (VInt 60) 60 incumbent).
  - reflexivity.
  - reflexivity.
  - reflexivity.
  - vm_compute. reflexivity.
  - reflexivity.
  - reflexivity.
  - reflexivity.
  - reflexivity.
  - exact incumbent_healthy.
  - apply candidate_won_spec. vm_compute. reflexivity.
Defined.

Lemma unique_service_winner_is_found_witness :
  let w := world_of [bare_candidate] ∅ in
  let sent := stamped sample_env "leader" (utcnow sample_env 0) bare_candidate in
  (unique_service sample_env "leader" None
     (unique_service sample_env "leader" (Some 0%nat) w).2).1
  = Return (Some sent).
Proof.
  intros w sent.
  apply (unique_service_winner_is_found sample_env "leader" w 0%nat
           bare_candidate (VInt 60) 60).
  - reflexivity.
  - reflexivity.
  - reflexivity.
  - vm_compute. reflexivity.
  - reflexivity.
  - reflexivity.
  - reflexivity.
  - reflexivity.
  - left. reflexivity.
  - vm_compute. reflexivity.
Defined.

Lemma unique_service_touches_only_its_role_witness :
  let w := world_of [bare_candidate] workers in
  services (unique_service sample_env "leader" (Some 0%nat) w).2 !! "A"
  = workers !! "A".
Proof.
  intros w.
  apply (unique_service_touches_only_its_role sample_env "leader" (Some 0%nat) w "A").
  discriminate.
Defined.

Lemma unique_service_returns_fresh_row_witness :
  let w := world_of [] {[ "leader" := incumbent ]} in
  let w' := (unique_service sample_env "leader" None w).2 in
  services w' !! "leader" = Some incumbent ∧
  fresh_at (utcnow sample_env 0) incumbent = Val true.
Proof.
  intros w w'.
  apply (unique_service_returns_fresh_row sample_env "leader" None w w' incumbent).
  vm_compute. reflexivity.
Defined.

Lemma unique_service_sets_id_before_validating_witness :
  let w := world_of [no_ttl] ∅ in
  let r := unique_service sample_env "leader" (Some 0%nat) w in
  (∃ msg, r.1 = Raise (PyException msg)) ∧
  heap r.2 = [<["id" := VStr "leader"]> no_ttl] ∧
  clock_reads r.2 = 1%nat.
Proof.
  intros w r.
  apply (unique_service_sets_id_before_validating sample_env "leader" w 0%nat no_ttl).
  - reflexivity.
  - left. reflexivity.
Defined.

Lemma unique_service_propagates_storage_failure_witness :
  let w := world_of [bare_candidate] ∅ in
  let sent := stamped offline_env "leader" (utcnow offline_env 0) bare_candidate in
  let r := unique_service offline_env "leader" (Some 0%nat) w in
  r.1 = Raise ReqlDriverError ∧
  services r.2 = ∅ ∧
  heap r.2 = [sent] ∧
  (unique_service offline_env "leader" None w).1 = Raise ReqlDriverError.
Proof.
  intros w sent r.
  apply (unique_service_propagates_storage_failure offline_env "leader" w 0%nat
           bare_candidate (VInt 60)).
  - reflexivity.
  - reflexivity.
  - simpl. lia.
  - reflexivity.
Defined.

Lemma healthy_service_propagates_storage_failure_witness :
  let r := healthy_service offline_env "worker" (world_of [] workers) in
  r.1 = Raise ReqlDriverError ∧ services r.2 = workers.
Proof.
  intros r.
  apply (healthy_service_propagates_storage_failure offline_env "worker"
           (world_of [] workers)).
  reflexivity.
Defined.

Lemma purge_with_multiplier_witness :
  services (purge_stale_services sample_env (Some (VInt 3))
              (world_of [] {[ "w1" := old_worker ]})).2 !! "w1"
  = Some old_worker.
Proof.
  refine (proj2 (purge_with_multiplier sample_env
                   (world_of [] {[ "w1" := old_worker ]}) (VInt 3) 3
                   eq_refl eq_refl _
                   "w1" old_worker 850 60 eq_refl eq_refl eq_refl) _).
  - intros k row Hk. simpl in Hk. apply lookup_singleton_Some in Hk as [_ <-].
    vm_compute. discriminate.
  - vm_compute. discriminate.
Defined.

Lemma purge_spares_healthy_records_witness :
  services (purge_stale_services sample_env None
              (world_of [] {[ "w2" := live_worker ]})).2 !! "w2"
  = Some live_worker.
Proof.
  apply (purge_spares_healthy_records sample_env
           (world_of [] {[ "w2" := live_worker ]}) None 2 "w2" live_worker 990 60).
  - reflexivity.
  - vm_compute. discriminate.
  - reflexivity.
  - intros k row Hk. simpl in Hk. apply lookup_singleton_Some in Hk as [_ <-].
    vm_compute. discriminate.
  - reflexivity.
  - reflexivity.
  - reflexivity.
  - vm_compute. discriminate.
  - vm_compute. reflexivity.
Defined.

Lemma unregister_deletes_or_warns_witness :
  let r := unregister sample_env "B" (registry_of workers) in
  r.1 = Return () ∧
  services (core r.2) = delete "B" workers ∧
  heap (core r.2) = [] ∧
  warnings r.2 = [].
Proof.
  intros r.
  apply (unregister_deletes_or_warns sample_env "B" (registry_of workers)).
  reflexivity.
Defined.

Lemma unregister_twice_witness :
  let r1 := unregister sample_env "B" (registry_of workers) in
  let r2 := unregister sample_env "B" r1.2 in
  r2.1 = Return () ∧
  services (core r2.2) = services (core r1.2) ∧
  warnings r2.2 = (warnings r1.2 ++ [deletion_warning "B"])%list.
Proof.
  apply (unregister_twice sample_env "B" (registry_of workers)); reflexivity.
Defined.

Lemma unregister_undoes_first_heartbeat_witness :
  let w := world_of [status_w1] workers in
  let r := unregister sample_env "w1" (Registry (heartbeat sample_env 0%nat w).2 [] []) in
  r.1 = Return () ∧
  services (core r.2) = workers ∧
  warnings r.2 = [].
Proof.
  intros w r.
  apply (unregister_undoes_first_heartbeat sample_env w 0%nat status_w1 "w1").
  - reflexivity.
  - exact valid_status_w1.
  - reflexivity.
  - reflexivity.
  - reflexivity.
  - reflexivity.
Defined.

Lemma workers_typed (role : option string) (row : dict) :
  looked_at role workers row → down 10 row ∨ healthy 10 row.
Proof.
  intros (k & Hk & _). right. unfold workers in Hk.
  apply lookup_insert_Some in Hk as [[_ <-] | [_ Hk]].
  - exists 0, (inject_Z 60). repeat split; vm_compute; reflexivity.
  - apply lookup_singleton_Some in Hk as [_ <-].
    exists 0, (inject_Z 60). repeat split; vm_compute; reflexivity.
Defined.

Lemma healthy_services_lists_healthy_by_load_witness :
  let r := healthy_services (server_at 10) (Some "worker") (registry_of workers) in
  ∃ rows, r.1 = Return rows ∧
          (∀ row, row ∈ rows ↔
                  looked_at (Some "worker") workers row ∧ healthy 10 row) ∧
          Sorted load_le rows ∧
          core r.2 = world_of [] workers.
Proof.
  intros r.
  apply (healthy_services_lists_healthy_by_load (server_at 10) (Some "worker")
           (registry_of workers)).
  - reflexivity.
  - exact (workers_typed (Some "worker")).
Defined.

Lemma healthy_service_is_first_of_healthy_services_witness :
  ∃ rows, (healthy_services (server_at 10) (Some "worker")
             (Registry (world_of [] workers) [] [])).1 = Return rows ∧
          (healthy_service (server_at 10) "worker" (world_of [] workers)).1
          = Return (head rows).
Proof.
  apply (healthy_service_is_first_of_healthy_services (server_at 10) "worker"
           (world_of [] workers)).
  - discriminate.
  - reflexivity.
  - intros row (k & Hk & Hrole). apply (workers_typed None). by exists k.
Defined.

Lemma sample_rethinker_named : named sample_rethinker "registry".
Proof. split; [reflexivity | discriminate]. Defined.

Lemma ensure_table_creates_database_table_and_index_witness :
  let r := ensure_table sample_env sample_rethinker (fresh_cluster ∅) in
  r.1 = inr () ∧
  catalog_of r.2 = <["registry" := {[ "services" := {[ "role" ]} ]}]> ∅ ∧
  admin_queries r.2 =
    [QDbList; QDbCreate "registry"; QTableList "registry";
     QTableCreate "registry" "services" 1 2;
     QIndexCreate "registry" "services" "role"].
Proof.
  intros r.
  apply (ensure_table_creates_database_table_and_index sample_env sample_rethinker
           "registry" (fresh_cluster ∅)).
  - exact sample_rethinker_named.
  - discriminate.
  - reflexivity.
  - intros i Hi. reflexivity.
Defined.

Lemma ensure_table_leaves_existing_table_alone_witness :
  let cat : catalog := {[ "registry" := {[ "services" := ∅ ]} ]} in
  ensure_table sample_env sample_rethinker (fresh_cluster cat)
  = (inr (), Cluster cat [QDbList; QTableList "registry"] []).
Proof.
  intros cat.
  apply (ensure_table_leaves_existing_table_alone sample_env sample_rethinker
           "registry" (fresh_cluster cat) {[ "services" := ∅ ]} ∅).
  - exact sample_rethinker_named.
  - reflexivity.
  - reflexivity.
  - reflexivity.
  - reflexivity.
Defined.

Lemma ensure_table_asserts_dbname_after_listing_witness :
  ensure_table sample_env (Rethinker (Some "") ["db0"]) (fresh_cluster ∅)
  = (inl AssertionError, Cluster ∅ [QDbList] []).
Proof.
  apply (ensure_table_asserts_dbname_after_listing sample_env
           (Rethinker (Some "") ["db0"]) (fresh_cluster ∅)).
  - right. reflexivity.
  - reflexivity.
Defined.
